(** * Extraction and reconciliation engine of the invoice tools

    A shallow embedding of the field extractors, the normaliser, the activity
    classifier, the page reconciler and the record builder of
    [genera_txt.py], [test_extraccion.py], [analizar_directorio.py] and
    [renombrar_facturas.py].

    Texts.  A Python [str] is modelled as a list of characters, each
    character being one code point in the range 0..255 (Latin-1), which
    covers the Spanish documents these tools read.  The character classes of
    Python's [re] module ([\d], [\s], [\w], case folding) are written out for
    that range.

    Regular expressions.  The patterns of the source are kept as data (an
    abstract syntax tree per pattern) and run by one backtracking matcher with
    the priorities of Python's [re]: alternatives left to right, greedy
    repetition longest first, lazy repetition shortest first, [search] taking
    the leftmost position. *)

From Stdlib Require Import Ascii String Decimal DecimalN DecimalFacts.
From stdpp Require Import gmap strings list fin_maps.

Set Default Proof Using "Type".
Local Open Scope list_scope.

(** ** Characters *)

Abbreviation str := (list ascii).

(** A literal of the source as a text. *)
Definition txt (s : string) : str := list_ascii_of_string s.

Definition code (c : ascii) : N := N_of_ascii c.

Definition between (lo hi : N) (c : ascii) : bool :=
  ((lo <=? code c) && (code c <=? hi))%N.

(** [\d]: the decimal digits (category Nd), which in this range are 0-9. *)
Definition is_digit (c : ascii) : bool := between 48 57 c.

(** [\s]: the white space of [str.isspace]. *)
Definition is_space (c : ascii) : bool :=
  between 9 13 c || between 28 32 c || (code c =? 133)%N || (code c =? 160)%N.

(** Letters of the range: A-Z, a-z, the ordinal indicators, the micro sign and
    the accented letters (the multiplication and division signs excluded). *)
Definition is_alpha (c : ascii) : bool :=
  between 65 90 c || between 97 122 c
  || (code c =? 170)%N || (code c =? 181)%N || (code c =? 186)%N
  || between 192 214 c || between 216 246 c || between 248 255 c.

(** Characters with a numeric value: the digits, the superscripts 1-3 and the
    vulgar fractions. *)
Definition is_numeric (c : ascii) : bool :=
  is_digit c || (code c =? 178)%N || (code c =? 179)%N || (code c =? 185)%N
  || between 188 190 c.

(** [\w]: alphanumeric or underscore. *)
Definition is_word (c : ascii) : bool :=
  is_alpha c || is_numeric c || (code c =? 95)%N.

(** [str.isdigit] on one character: the digits and the superscripts 1-3. *)
Definition is_digit_char (c : ascii) : bool :=
  is_digit c || (code c =? 178)%N || (code c =? 179)%N || (code c =? 185)%N.

Definition shift_up (c : ascii) : ascii := ascii_of_N (code c + 32).
Definition shift_down (c : ascii) : ascii := ascii_of_N (code c - 32).

(** Lower case of one character: A-Z and the accented capitals. *)
Definition lower_char (c : ascii) : ascii :=
  if between 65 90 c || between 192 214 c || between 216 222 c
  then shift_up c else c.

(** [str.lower]. *)
Definition lower (s : str) : str := map lower_char s.

(** Upper case of one character.  The sharp s becomes "SS"; the upper-case
    forms of the micro sign and of y with diaeresis lie outside the range and
    the characters are kept, which changes no test against an ASCII text. *)
Definition upper_char (c : ascii) : str :=
  if between 97 122 c || between 224 246 c || between 248 254 c
  then [shift_down c]
  else if (code c =? 223)%N then txt "SS" else [c].

(** [str.upper]. *)
Definition upper (s : str) : str := concat (map upper_char s).

(** ** Patterns *)

Record flags := { ignorecase : bool; dotall : bool }.

Definition re_none : flags := {| ignorecase := false; dotall := false |}.
Definition re_I : flags := {| ignorecase := true; dotall := false |}.
Definition re_DOTALL : flags := {| ignorecase := false; dotall := true |}.
Definition re_DOTALL_I : flags := {| ignorecase := true; dotall := true |}.

(** Character sets: a literal, [\d], [\s], [\w]; the dot; a bracket
    expression. *)
Inductive citem :=
| CChar (c : ascii)
| CDigit
| CSpace
| CWord.

Inductive cset :=
| One (i : citem)
| Dot
| OneOf (l : list citem).

Definition in_citem (fl : flags) (i : citem) (x : ascii) : bool :=
  match i with
  | CChar c =>
      if ignorecase fl then bool_decide (lower_char x = lower_char c)
      else bool_decide (x = c)
  | CDigit => is_digit x
  | CSpace => is_space x
  | CWord => is_word x
  end.

Definition in_cset (fl : flags) (cs : cset) (x : ascii) : bool :=
  match cs with
  | One i => in_citem fl i x
  | Dot => dotall fl || negb (bool_decide (x = "010"%char))
  | OneOf l => existsb (fun i => in_citem fl i x) l
  end.

Inductive regex :=
| Eps
| Sym (c : cset)
| Seq (r1 r2 : regex)
| Alt (r1 r2 : regex)
| Star (greedy : bool) (r : regex)
| Grp (n : nat) (r : regex)
| Bnd
| Bol
| Eol.

(** Derived forms. *)
Definition Plus (r : regex) : regex := Seq r (Star true r).
Definition Opt (r : regex) : regex := Alt r Eps.

Fixpoint Rep (n : nat) (r : regex) : regex :=
  match n with
  | 0 => Eps
  | S n' => Seq r (Rep n' r)
  end.

Fixpoint UpTo (n : nat) (r : regex) : regex :=
  match n with
  | 0 => Eps
  | S n' => Opt (Seq r (UpTo n' r))
  end.

(** [r{m,n}] *)
Definition RepRange (m n : nat) (r : regex) : regex :=
  Seq (Rep m r) (UpTo (n - m) r).

(** A literal word. *)
Fixpoint Word (s : str) : regex :=
  match s with
  | [] => Eps
  | c :: s' => Seq (Sym (One (CChar c))) (Word s')
  end.

Definition Lit (s : string) : regex := Word (txt s).

Definition d : regex := Sym (One CDigit).
Definition sp : regex := Sym (One CSpace).
Definition w : regex := Sym (One CWord).
Definition ch (c : ascii) : regex := Sym (One (CChar c)).
Definition BC : regex := Sym (OneOf [CChar "B"; CChar "C"]).

Fixpoint seqs (l : list regex) : regex :=
  match l with
  | [] => Eps
  | [r] => r
  | r :: l' => Seq r (seqs l')
  end.

(** ** The matcher *)

(** Captured groups, latest first. *)
Abbreviation caps := (list (nat * str)).

Fixpoint cap_get (n : nat) (cs : caps) : option str :=
  match cs with
  | [] => None
  | (m, w) :: cs' => if (n =? m)%nat then Some w else cap_get n cs'
  end.

Definition is_word_opt (o : option ascii) : bool :=
  match o with Some c => is_word c | None => false end.

(** The part of [s] consumed when [s'] is what is left of it. *)
Definition consumed (s s' : str) : str := take (length s - length s') s.

Section Matcher.
Context {A : Type}.

(** A continuation takes the character before the position, the rest of the
    text and the groups captured so far. *)
Definition cont := option ascii → str → caps → option A.

(** The loop of a repetition.  [body] runs the repeated pattern once; an
    iteration must consume something, so [fuel] above the length of the
    text is never used up.  Greedy: one more iteration is tried before
    leaving the loop; lazy: leaving the loop is tried first. *)
Fixpoint star_loop (body : option ascii → str → caps → cont → option A)
    (g : bool) (k : cont) (fuel : nat)
    (prev : option ascii) (s : str) (cs : caps) : option A :=
  match fuel with
  | 0 => k prev s cs
  | S fuel' =>
      let otra (p' : option ascii) (s' : str) (cs' : caps) : option A :=
        if (length s' <? length s)%nat
        then star_loop body g k fuel' p' s' cs' else None in
      if g then
        match body prev s cs otra with
        | Some a => Some a
        | None => k prev s cs
        end
      else
        match k prev s cs with
        | Some a => Some a
        | None => body prev s cs otra
        end
  end.

Fixpoint rmatch (fl : flags) (r : regex)
    (prev : option ascii) (s : str) (cs : caps) (k : cont) : option A :=
  match r with
  | Eps => k prev s cs
  | Sym c =>
      match s with
      | x :: s' => if in_cset fl c x then k (Some x) s' cs else None
      | [] => None
      end
  | Seq r1 r2 =>
      rmatch fl r1 prev s cs (fun p' s' cs' => rmatch fl r2 p' s' cs' k)
  | Alt r1 r2 =>
      match rmatch fl r1 prev s cs k with
      | Some a => Some a
      | None => rmatch fl r2 prev s cs k
      end
  | Star g r1 => star_loop (rmatch fl r1) g k (S (length s)) prev s cs
  | Grp n r1 =>
      rmatch fl r1 prev s cs (fun p' s' cs' =>
        k p' s' ((n, consumed s s') :: cs'))
  | Bnd =>
      if xorb (is_word_opt prev) (is_word_opt (head s))
      then k prev s cs else None
  | Bol =>
      match prev with None => k prev s cs | Some _ => None end
  | Eol =>
      match s with
      | [] => k prev s cs
      | [c] => if bool_decide (c = "010"%char) then k prev s cs else None
      | _ => None
      end
  end.
End Matcher.

(** A match object: the whole match (group 0) and the captured groups. *)
Record rmatch_obj := { m_whole : str; m_caps : caps }.

Definition group (n : nat) (m : rmatch_obj) : option str :=
  match n with 0 => Some (m_whole m) | _ => cap_get n (m_caps m) end.

(** A group that took part in the match, as a text. *)
Definition group_str (n : nat) (m : rmatch_obj) : str :=
  default [] (group n m).

(** The match of [r] that starts at the current position, if any. *)
Definition match_at (fl : flags) (r : regex) (prev : option ascii) (s : str)
    : option rmatch_obj :=
  rmatch fl r prev s [] (fun _ s' cs =>
    Some {| m_whole := consumed s s'; m_caps := cs |}).

(** [re.search]: the match at the leftmost position that has one. *)
Fixpoint search_from (fl : flags) (r : regex) (prev : option ascii) (s : str)
    : option rmatch_obj :=
  match match_at fl r prev s with
  | Some m => Some m
  | None =>
      match s with
      | [] => None
      | c :: s' => search_from fl r (Some c) s'
      end
  end.

Definition re_search (r : regex) (s : str) (fl : flags) : option rmatch_obj :=
  search_from fl r None s.

(** [re.finditer]: the matches from left to right, none overlapping another.
    [skip] counts the characters still covered by the last match.  (No pattern
    given to [finditer] or [findall] in these tools matches the empty text.) *)
Fixpoint finditer_from (fl : flags) (r : regex) (prev : option ascii)
    (s : str) (skip : nat) : list rmatch_obj :=
  match skip with
  | S k =>
      match s with
      | c :: s' => finditer_from fl r (Some c) s' k
      | [] => []
      end
  | 0 =>
      match match_at fl r prev s with
      | Some m =>
          m :: match s with
               | c :: s' =>
                   finditer_from fl r (Some c) s' (length (m_whole m) - 1)
               | [] => []
               end
      | None =>
          match s with
          | c :: s' => finditer_from fl r (Some c) s' 0
          | [] => []
          end
      end
  end.

Definition re_finditer (r : regex) (s : str) (fl : flags) : list rmatch_obj :=
  finditer_from fl r None s 0.

(** [re.findall] for a pattern without groups: the matched texts. *)
Definition re_findall (r : regex) (s : str) (fl : flags) : list str :=
  map m_whole (re_finditer r s fl).

(** [re.match]: the match that starts at the beginning of the text. *)
Definition re_match (r : regex) (s : str) (fl : flags) : option rmatch_obj :=
  match_at fl r None s.

(** [needle in haystack] *)
Fixpoint is_prefix (p s : str) : bool :=
  match p, s with
  | [], _ => true
  | a :: p', b :: s' => bool_decide (a = b) && is_prefix p' s'
  | _ :: _, [] => false
  end.

Fixpoint contains (s needle : str) : bool :=
  is_prefix needle s ||
  match s with
  | [] => false
  | _ :: s' => contains s' needle
  end.

(** [s.replace(c, "")] for a one-character [c]. *)
Definition remove_char (c : ascii) (s : str) : str :=
  filter (fun x => x ≠ c) s.

(** [s.replace(c1, c2)] for one-character texts. *)
Definition replace_char (c1 c2 : ascii) (s : str) : str :=
  map (fun x => if bool_decide (x = c1) then c2 else x) s.

(** ** Python's text and number primitives *)

(** Truth value of an optional text: [None] and the empty text are false. *)
Definition truthy (o : option str) : bool :=
  match o with
  | Some (_ :: _) => true
  | _ => false
  end.

(** Truth value of a match object. *)
Definition hay {A} (o : option A) : bool :=
  match o with
  | Some _ => true
  | None => false
  end.

(** [sep.join(l)] *)
Fixpoint join (sep : str) (l : list str) : str :=
  match l with
  | [] => []
  | [x] => x
  | x :: l' => x ++ sep ++ join sep l'
  end.

Fixpoint lstrip (s : str) : str :=
  match s with
  | c :: s' => if is_space c then lstrip s' else s
  | [] => []
  end.

(** [s.strip()] *)
Definition strip (s : str) : str := reverse (lstrip (reverse (lstrip s))).

(** [s.zfill(w)]: zeros on the left, after a leading sign if there is one. *)
Definition zfill (w : nat) (s : str) : str :=
  if (w <=? length s)%nat then s
  else
    match s with
    | c :: s' =>
        if bool_decide (c = "+"%char) || bool_decide (c = "-"%char)
        then c :: replicate (w - length s) "0"%char ++ s'
        else replicate (w - length s) "0"%char ++ s
    | [] => replicate w "0"%char
    end.

(** [s.ljust(w, c)] *)
Definition ljust (w : nat) (c : ascii) (s : str) : str :=
  s ++ replicate (w - length s) c.

(** [s.split(c)] for a one-character separator: the empty text gives one
    empty field. *)
Fixpoint split_char (c : ascii) (s : str) : list str :=
  match s with
  | [] => [[]]
  | x :: s' =>
      if bool_decide (x = c) then [] :: split_char c s'
      else match split_char c s' with
           | f :: l => (x :: f) :: l
           | [] => [[x]]
           end
  end.

(** [s.endswith(t)] *)
Definition endswith (s t : str) : bool :=
  bool_decide (drop (length s - length t) s = t).

(** [s.isdigit()] *)
Definition isdigit (s : str) : bool :=
  negb (bool_decide (s = [])) && forallb is_digit_char s.

(** The digits of an integer literal: digits, with single underscores allowed
    between two digits. *)
Fixpoint int_digits (s : str) (after_digit : bool) : option str :=
  match s with
  | [] => if after_digit then Some [] else None
  | c :: s' =>
      if is_digit c then (c ::.) <$> int_digits s' true
      else if bool_decide (c = "_"%char) && after_digit
           then int_digits s' false
           else None
  end.

(** Decimal digits to a number and back, through [Decimal.uint]. *)
Definition digit_of_char (c : ascii) (u : Decimal.uint) : option Decimal.uint :=
  match c with
  | "0" => Some (Decimal.D0 u) | "1" => Some (Decimal.D1 u)
  | "2" => Some (Decimal.D2 u) | "3" => Some (Decimal.D3 u)
  | "4" => Some (Decimal.D4 u) | "5" => Some (Decimal.D5 u)
  | "6" => Some (Decimal.D6 u) | "7" => Some (Decimal.D7 u)
  | "8" => Some (Decimal.D8 u) | "9" => Some (Decimal.D9 u)
  | _ => None
  end%char.

Fixpoint uint_of_digits (ds : str) : option Decimal.uint :=
  match ds with
  | [] => Some Decimal.Nil
  | c :: ds' => u ← uint_of_digits ds'; digit_of_char c u
  end.

Fixpoint digits_of_uint (u : Decimal.uint) : str :=
  match u with
  | Decimal.Nil => []
  | Decimal.D0 u' => "0" :: digits_of_uint u'
  | Decimal.D1 u' => "1" :: digits_of_uint u'
  | Decimal.D2 u' => "2" :: digits_of_uint u'
  | Decimal.D3 u' => "3" :: digits_of_uint u'
  | Decimal.D4 u' => "4" :: digits_of_uint u'
  | Decimal.D5 u' => "5" :: digits_of_uint u'
  | Decimal.D6 u' => "6" :: digits_of_uint u'
  | Decimal.D7 u' => "7" :: digits_of_uint u'
  | Decimal.D8 u' => "8" :: digits_of_uint u'
  | Decimal.D9 u' => "9" :: digits_of_uint u'
  end%char.

Definition digits_value (ds : str) : option N :=
  N.of_uint <$> uint_of_digits ds.

(** [int(s)]; [None] stands for [ValueError].  (The limit that recent
    interpreters put on the length of the literal is not modelled.) *)
Definition py_int (s : str) : option Z :=
  match strip s with
  | c :: s' =>
      if bool_decide (c = "-"%char)
      then ds ← int_digits s' false; n ← digits_value ds; Some (- Z.of_N n)%Z
      else if bool_decide (c = "+"%char)
      then ds ← int_digits s' false; n ← digits_value ds; Some (Z.of_N n)
      else ds ← int_digits (c :: s') false; n ← digits_value ds;
           Some (Z.of_N n)
  | [] => None
  end.

Definition str_N (n : N) : str := digits_of_uint (N.to_uint n).

(** [str(z)] *)
Definition py_str (z : Z) : str :=
  match z with
  | Zneg p => "-"%char :: str_N (Npos p)
  | _ => str_N (Z.to_N z)
  end.

(** The clock: what [datetime.now()] returns. *)
Record datetime := { year : nat; month : nat; day : nat }.

Definition str_nat (n : nat) : str := str_N (N.of_nat n).

(** [strftime("%d/%m/%Y")] *)
Definition strftime_dmY (t : datetime) : str :=
  zfill 2 (str_nat (day t)) ++ txt "/" ++ zfill 2 (str_nat (month t))
  ++ txt "/" ++ zfill 4 (str_nat (year t)).

(** A pattern of the source: its text and its syntax tree. *)
Record patron := { fuente : string; re : regex }.

(** Accented letters and signs used by the source. *)
Definition a_acute : ascii := "225"%char.
Definition i_acute : ascii := "237"%char.
Definition o_acute : ascii := "243"%char.
Definition degree : ascii := "176"%char.
Definition newline : ascii := "010"%char.

Definition digit_dot_comma : regex :=
  Sym (OneOf [CDigit; CChar "."; CChar ","]).

(** What the readers of a document give for its first two pages: the text
    layer ([leer_pagina_text], [leer_pagina]) and the transcription
    ([leer_pagina_ocr]); each is the empty text when the page is missing or
    the reader fails. *)
Record documento := {
  pagina1 : str; pagina2 : str;
  ocr1 : str; ocr2 : str
}.

Abbreviation dict := (gmap string str).

(** ** [genera_txt.py] (the extractors are the same in [test_extraccion.py]) *)

Module GeneraTxt.

(** [CODIGO_CBTE]: (type, letter) to the code of the document. *)
Definition CODIGO_CBTE : gmap (str * str) str :=
  list_to_map
    [ ((txt "FACTURA", txt "B"), txt "03");
      ((txt "RECIBO", txt "B"), txt "04");
      ((txt "FACTURA", txt "C"), txt "05");
      ((txt "RECIBO", txt "C"), txt "06") ].

(** The [try] keeps the text when [int] raises. *)
Definition limpiar_numero (num_str : str) : str :=
  if isdigit num_str
  then match py_int num_str with
       | Some n => py_str n
       | None => num_str
       end
  else num_str.

(** *** Issuer tax id *)

Definition cuit_guiones : regex :=
  seqs [Rep 2 d; ch "-"; Rep 8 d; ch "-"; d].

Definition patrones_cuit : list regex :=
  [ (* \bCUIT:?\s*(\d{2}-\d{8}-\d)\b *)
    seqs [Bnd; Lit "CUIT"; Opt (ch ":"); Star true sp; Grp 1 cuit_guiones; Bnd];
    (* \bCUIT:?\s*(\d{11})\b *)
    seqs [Bnd; Lit "CUIT"; Opt (ch ":"); Star true sp; Grp 1 (Rep 11 d); Bnd];
    (* \b(\d{2}-\d{8}-\d)\b *)
    seqs [Bnd; Grp 1 cuit_guiones; Bnd];
    (* \b(\d{11})\b *)
    seqs [Bnd; Grp 1 (Rep 11 d); Bnd] ].

(** The body of the inner loop: one match, added when it is new. *)
Definition agregar_cuit (cuits : list str) (m : rmatch_obj) : list str :=
  let cuit := remove_char "-" (group_str 1 m) in
  if bool_decide (cuit ∉ cuits) && (length cuit =? 11)%nat
  then cuits ++ [cuit] else cuits.

Definition extraer_cuits (texto : str) : list str :=
  foldl (fun cuits patron =>
           foldl agregar_cuit cuits (re_finditer patron texto re_I))
        [] patrones_cuit.

(** *** Type and letter *)

Definition patron_cod : patron :=
  {| fuente := "COD\.?\s*(\d+)";
     re := seqs [Lit "COD"; Opt (ch "."); Star true sp; Grp 1 (Plus d)] |}.

Definition patrones_letra : list patron :=
  [ {| fuente := "([BC])\s+FACTURA";
       re := seqs [Grp 1 BC; Plus sp; Lit "FACTURA"] |};
    {| fuente := "FACTURA\s+([BC])";
       re := seqs [Lit "FACTURA"; Plus sp; Grp 1 BC] |};
    {| fuente := "([BC])\s+COD";
       re := seqs [Grp 1 BC; Plus sp; Lit "COD"] |};
    patron_cod;
    {| fuente := "(^|\n)\s*([BC])\s*(\n|$)";
       re := seqs [Grp 1 (Alt Bol (ch newline)); Star true sp; Grp 2 BC;
                   Star true sp; Grp 3 (Alt (ch newline) Eol)] |};
    {| fuente := "\b([BC])\d{2,4}\b";
       re := seqs [Bnd; Grp 1 BC; RepRange 2 4 d; Bnd] |} ].

(** The letter inferred from the code that follows "COD". *)
Definition letra_de_codigo (codigo : str) : option str :=
  if bool_decide (codigo = txt "011") then Some (txt "C")
  else if bool_decide (codigo = txt "006") then Some (txt "C")
  else if bool_decide (codigo = txt "008") then Some (txt "B")
  else if bool_decide (codigo = txt "009") then Some (txt "B")
  else None.

(** The loop over [patrones_letra]; a [break] ends the recursion. *)
Fixpoint buscar_letra (texto : str) (patrones : list patron) : option str :=
  match patrones with
  | [] => None
  | p :: patrones' =>
      match re_search (re p) texto re_I with
      | Some m =>
          let grupo := group 1 m in
          if bool_decide (grupo ∈ [Some (txt "B"); Some (txt "C");
                                   Some (txt "b"); Some (txt "c")])
          then upper <$> grupo
          else if bool_decide (fuente p = "COD\.?\s*(\d+)") && truthy grupo
          then grupo ≫= letra_de_codigo
          else buscar_letra texto patrones'
      | None => buscar_letra texto patrones'
      end
  end.

Definition palabra (s : string) : regex := seqs [Bnd; Lit s; Bnd].

Definition extraer_tipo_letra (texto : str) : option str * option str :=
  let tipo :=
    if hay (re_search (palabra "FACTURA") texto re_I) then Some (txt "FACTURA")
    else if hay (re_search (palabra "RECIBO") texto re_I) then Some (txt "RECIBO")
    else None in
  let letra := buscar_letra texto patrones_letra in
  let letra :=
    if truthy tipo && negb (truthy letra) then
      if bool_decide (tipo = Some (txt "FACTURA"))
         && (contains texto (txt "C FACTURA") || contains texto (txt "FACTURA C"))
      then Some (txt "C")
      else if bool_decide (tipo = Some (txt "FACTURA"))
         && (contains texto (txt "B FACTURA") || contains texto (txt "FACTURA B"))
      then Some (txt "B")
      else if bool_decide (tipo = Some (txt "RECIBO"))
         && (contains texto (txt "C RECIBO") || contains texto (txt "RECIBO C"))
      then Some (txt "C")
      else if bool_decide (tipo = Some (txt "RECIBO"))
         && (contains texto (txt "B RECIBO") || contains texto (txt "RECIBO B"))
      then Some (txt "B")
      else letra
    else letra in
  (tipo, letra).

(** *** Sales point and number *)

Definition ceros : regex := Star true (ch "0").
Definition numero : regex := Plus d.
Definition punto_de_venta : regex :=
  seqs [Lit "Punto"; Star true sp; Lit "de"; Star true sp; Lit "Venta";
        Opt (ch ":"); Star true sp; ceros; Grp 1 numero].
Definition comp_nro : regex :=
  seqs [Lit "Comp"; Opt (ch "."); Star true sp; Lit "Nro"; Opt (ch ":");
        Star true sp; ceros; Grp 2 numero].

(** In the third pattern the bracket holds the hyphen and the en dash; the en
    dash lies outside the range of the modelled texts. *)
Definition patrones_pv_nro : list patron :=
  [ {| fuente := "Punto\s*de\s*Venta:?\s*0*(\d+)\s+Comp\.?\s*Nro:?\s*0*(\d+)";
       re := seqs [punto_de_venta; Plus sp; comp_nro] |};
    {| fuente := "Punto\s*de\s*Venta:?\s*0*(\d+).*?Comp\.?\s*Nro:?\s*0*(\d+)";
       re := seqs [punto_de_venta; Star false (Sym Dot); comp_nro] |};
    {| fuente := "\b0*(\d+)\s*[-–]\s*0*(\d{1,9})\b";
       re := seqs [Bnd; ceros; Grp 1 numero; Star true sp;
                   Sym (OneOf [CChar "-"]); Star true sp; ceros;
                   Grp 2 (RepRange 1 9 d); Bnd] |};
    {| fuente := "Nro\s+0*(\d+)\s*-\s*0*(\d+)";
       re := seqs [Lit "Nro"; Plus sp; ceros; Grp 1 numero; Star true sp;
                   ch "-"; Star true sp; ceros; Grp 2 numero] |};
    {| fuente := "(FAC\-)?([BC])\s*-\s*0*(\d+)\s*-\s*0*(\d+)";
       re := seqs [Opt (Grp 1 (Lit "FAC-")); Grp 2 BC; Star true sp; ch "-";
                   Star true sp; ceros; Grp 3 numero; Star true sp; ch "-";
                   Star true sp; ceros; Grp 4 numero] |};
    {| fuente := "(FAC\-)?([BC])\-0*(\d+)\-0*(\d+)";
       re := seqs [Opt (Grp 1 (Lit "FAC-")); Grp 2 BC; ch "-"; ceros;
                   Grp 3 numero; ch "-"; ceros; Grp 4 numero] |} ].

Fixpoint buscar_pv_nro (texto : str) (patrones : list patron)
    : option str * option str :=
  match patrones with
  | [] => (None, None)
  | p :: patrones' =>
      match re_search (re p) texto re_I with
      | Some m =>
          if contains (txt (fuente p)) (txt "FAC")
          then (limpiar_numero <$> group 3 m, limpiar_numero <$> group 4 m)
          else (limpiar_numero <$> group 1 m, limpiar_numero <$> group 2 m)
      | None => buscar_pv_nro texto patrones'
      end
  end.

Definition extraer_pv_nro (texto : str) : option str * option str :=
  buscar_pv_nro texto patrones_pv_nro.

(** *** Issue date *)

Definition fecha_barras : regex :=
  seqs [Rep 2 d; ch "/"; Rep 2 d; ch "/"; Rep 4 d].
Definition fecha_guiones : regex :=
  seqs [Rep 2 d; ch "-"; Rep 2 d; ch "-"; Rep 4 d].

(** Fecha\s+de\s+Emisión:?\s*(\d{2}/\d{2}/\d{4}) *)
Definition patron_fecha_emision : regex :=
  seqs [Lit "Fecha"; Plus sp; Lit "de"; Plus sp; Lit "Emisi"; ch o_acute;
        ch "n"; Opt (ch ":"); Star true sp; Grp 1 fecha_barras].

Definition extraer_fecha (ahora : datetime) (texto : str) : str :=
  match re_search patron_fecha_emision texto re_I with
  | Some fecha_match => group_str 1 fecha_match
  | None =>
      let fechas := re_findall fecha_barras texto re_none in
      if (4 <=? length fechas)%nat then default [] (fechas !! 3)
      else match fechas with
           | f :: _ => f
           | [] =>
               match re_findall fecha_guiones texto re_none with
               | f :: _ => replace_char "-" "/" f
               | [] => strftime_dmY ahora
               end
           end
  end.

(** *** Authorisation code and kind of emission *)

(** CAE\s*N°:?\s*(\d{14}) *)
Definition patron_cae : regex :=
  seqs [Lit "CAE"; Star true sp; ch "N"; ch degree; Opt (ch ":"); Star true sp;
        Grp 1 (Rep 14 d)].
(** Pág\.\s*1/1\s+(\d{14}) *)
Definition patron_cae_final : regex :=
  seqs [ch "P"; ch a_acute; ch "g"; ch "."; Star true sp; Lit "1/1"; Plus sp;
        Grp 1 (Rep 14 d)].
(** CAE.*?(\d{14}) *)
Definition patron_cae_cercano : regex :=
  seqs [Lit "CAE"; Star false (Sym Dot); Grp 1 (Rep 14 d)].
(** CAI\s*N°:?\s*(\d{14}) *)
Definition patron_cai : regex :=
  seqs [Lit "CAI"; Star true sp; ch "N"; ch degree; Opt (ch ":"); Star true sp;
        Grp 1 (Rep 14 d)].
(** \b(\d{14})\b *)
Definition patron_14 : regex := seqs [Bnd; Grp 1 (Rep 14 d); Bnd].

Definition extraer_cae (texto : str) : option str * option str :=
  match re_search patron_cae texto re_I with
  | Some m => (group 1 m, Some (txt "E"))
  | None =>
  match re_search patron_cae_final texto re_none with
  | Some m => (group 1 m, Some (txt "E"))
  | None =>
  match re_search patron_cae_cercano texto re_DOTALL_I with
  | Some m => (group 1 m, Some (txt "E"))
  | None =>
  match re_search patron_cai texto re_I with
  | Some m => (group 1 m, Some (txt "I"))
  | None =>
  match re_search patron_14 texto re_none with
  | Some m => (group 1 m, Some (txt "E"))
  | None => (None, None)
  end end end end end.

(** *** Amount *)

Definition monto (etiqueta : string) : regex :=
  seqs [Lit etiqueta; Opt (ch ":"); Star true sp; Opt (ch "$"); Star true sp;
        Grp 1 (Plus digit_dot_comma)].

Definition patrones_importe : list regex :=
  [ monto "Importe Total"; monto "TOTAL"; monto "Total";
    monto "IMPORTE TOTAL" ].

(** (\d{3,6}(?:\.\d{3})*(?:,\d{2})) *)
Definition patron_importe_suelto : regex :=
  Grp 1 (seqs [RepRange 3 6 d; Star true (seqs [ch "."; Rep 3 d]);
               seqs [ch ","; Rep 2 d]]).

Definition sin_separadores (s : str) : str :=
  remove_char "," (remove_char "." s).

Fixpoint buscar_importe (texto : str) (patrones : list regex) : option str :=
  match patrones with
  | [] => None
  | p :: patrones' =>
      match re_search p texto re_I with
      | Some m => Some (sin_separadores (group_str 1 m))
      | None => buscar_importe texto patrones'
      end
  end.

Definition extraer_importe (texto : str) : option str :=
  match buscar_importe texto patrones_importe with
  | Some importe => Some importe
  | None =>
      let importes :=
        map (group_str 1) (re_finditer patron_importe_suelto texto re_none) in
      sin_separadores <$> last importes
  end.

(** *** Period *)

(** Período\s*Facturado\s*Desde:?\s*\d{2}/(\d{2})/(\d{4}) *)
Definition patron_periodo : regex :=
  seqs [ch "P"; ch "e"; ch "r"; ch i_acute; Lit "odo"; Star true sp;
        Lit "Facturado"; Star true sp; Lit "Desde"; Opt (ch ":"); Star true sp;
        Rep 2 d; ch "/"; Grp 1 (Rep 2 d); ch "/"; Grp 2 (Rep 4 d)].

(** mes\s+de\s+(\w+)\s+de\s+(\d{4}) *)
Definition patron_mes : regex :=
  seqs [Lit "mes"; Plus sp; Lit "de"; Plus sp; Grp 1 (Plus w); Plus sp;
        Lit "de"; Plus sp; Grp 2 (Rep 4 d)].

Definition meses : gmap str str :=
  list_to_map
    [ (txt "enero", txt "01"); (txt "febrero", txt "02");
      (txt "marzo", txt "03"); (txt "abril", txt "04");
      (txt "mayo", txt "05"); (txt "junio", txt "06");
      (txt "julio", txt "07"); (txt "agosto", txt "08");
      (txt "septiembre", txt "09"); (txt "octubre", txt "10");
      (txt "noviembre", txt "11"); (txt "diciembre", txt "12") ].

Definition periodo_actual (ahora : datetime) : str :=
  zfill 2 (str_nat (month ahora)) ++ str_nat (year ahora).

Definition extraer_periodo (ahora : datetime) (texto : str) : str :=
  match re_search patron_periodo texto re_I with
  | Some periodo_match =>
      group_str 1 periodo_match ++ group_str 2 periodo_match
  | None =>
      match re_search patron_mes texto re_I with
      | Some mes_match =>
          let mes_texto := lower (group_str 1 mes_match) in
          let anio := group_str 2 mes_match in
          match meses !! mes_texto with
          | Some mes => mes ++ anio
          | None => periodo_actual ahora
          end
      | None => periodo_actual ahora
      end
  end.

(** *** Activity and dependency flag *)

Definition terminos_dependencia : list str :=
  [txt "dependencia"; txt "discapacidad"; txt "discapac"].

Definition terminos_profesionales : list str :=
  [ txt "psicolog" ++ [i_acute] ++ txt "a"; txt "psicologia";
    txt "psic" ++ [o_acute] ++ txt "logo"; txt "psicologo";
    txt "musicoterapia"; txt "musicoterapeuta";
    txt "kinesiolog" ++ [i_acute] ++ txt "a"; txt "kinesiologia";
    txt "kinesi" ++ [o_acute] ++ txt "logo"; txt "kinesiologo";
    txt "fonoaudiolog" ++ [i_acute] ++ txt "a"; txt "fonoaudiologia";
    txt "fonoaudi" ++ [o_acute] ++ txt "logo"; txt "fonoaudiologo";
    txt "psicopedagog" ++ [i_acute] ++ txt "a"; txt "psicopedagogia";
    txt "psicopedagogo" ].

Definition terminos_integracion : list str :=
  [ txt "m" ++ [o_acute] ++ txt "dulo de apoyo"; txt "modulo de apoyo";
    txt "apoyo a la integraci" ++ [o_acute] ++ txt "n";
    txt "apoyo a la integracion";
    txt "maestra integradora"; txt "maestro integrador" ].

(** [any(term in texto for term in terminos)] *)
Definition alguno (texto : str) (terminos : list str) : bool :=
  existsb (contains texto) terminos.

Definition map_actividad (texto : str) : str * str :=
  let texto_lower := lower texto in
  if contains texto_lower (txt "transporte")
     || contains texto_lower (txt "traslado")
     || hay (re_search (palabra "km") texto_lower re_none)
  then
    let dep_flag :=
      if alguno texto_lower terminos_dependencia then txt "S" else txt "N" in
    (txt "096", dep_flag)
  else if alguno texto_lower terminos_profesionales
  then (txt "091", txt "N")
  else if contains texto_lower (txt "estimulaci" ++ [o_acute] ++ txt "n temprana")
          || contains texto_lower (txt "estimulacion temprana")
  then (txt "085", txt "N")
  else if alguno texto_lower terminos_integracion
  then (txt "089", txt "N")
  else if contains texto_lower (txt "honorarios profesionales")
          || contains texto_lower (txt "sesiones")
          || contains texto_lower (txt "terapia")
  then (txt "090", txt "N")
  else
    let dep_flag :=
      if alguno texto_lower terminos_dependencia then txt "S" else txt "N" in
    (txt "090", dep_flag).

Definition cantidad_por_actividad (cod : str) : str :=
  if bool_decide (cod = txt "096") then txt "001500"
  else if bool_decide (cod ∈ [txt "090"; txt "091"]) then txt "000004"
  else txt "000001".

(** *** The whole document *)

(** [x or dflt] *)
Definition o_bien (x : option str) (dflt : str) : str :=
  match x with
  | Some (c :: s) => c :: s
  | _ => dflt
  end.

(** The texts of the two pages after the transcription has been tried. *)
Definition textos (doc : documento) : str * str :=
  let texto1 := pagina1 doc in
  let texto2 := pagina2 doc in
  if (length texto1 <? 200)%nat || (length texto2 <? 200)%nat
  then (if (length texto1 <? length (ocr1 doc))%nat then ocr1 doc else texto1,
        if (length texto2 <? length (ocr2 doc))%nat then ocr2 doc else texto2)
  else (texto1, texto2).

Definition texto_completo (doc : documento) : str :=
  (textos doc).1 ++ [newline] ++ (textos doc).2.

(** Type and letter after the inference of [extraer_info_pdf]. *)
Definition tipo_letra_inferidos (texto : str) : option str * option str :=
  let '(tipo, letra) := extraer_tipo_letra texto in
  if negb (truthy tipo) || negb (truthy letra)
  then
    if contains (upper texto) (txt "FACTURA")
    then (Some (txt "FACTURA"),
          if contains texto (txt "C") then Some (txt "C")
          else if contains texto (txt "B") then Some (txt "B")
          else letra)
    else (tipo, letra)
  else (tipo, letra).

Definition codigo_de (tipo letra : option str) : option str :=
  if truthy tipo && truthy letra
  then t ← tipo; l ← letra; CODIGO_CBTE !! (t, l)
  else None.

(** The empty dictionary is the failed extraction. *)
Definition extraer_info_pdf (ahora : datetime) (doc : documento) : dict :=
  let texto_completo := texto_completo doc in
  match extraer_cuits texto_completo with
  | [] => ∅
  | cuit_emisor :: _ =>
      let '(tipo, letra) := tipo_letra_inferidos texto_completo in
      let codigo_cbte := codigo_de tipo letra in
      if negb (truthy codigo_cbte) then ∅
      else
        let '(pv, nro) := extraer_pv_nro texto_completo in
        if negb (truthy pv) || negb (truthy nro) then ∅
        else
          let fecha_cbte := extraer_fecha ahora texto_completo in
          let '(nro_cae, tipo_emision) := extraer_cae texto_completo in
          let importe := extraer_importe texto_completo in
          let periodo := extraer_periodo ahora texto_completo in
          let '(actividad, dep_flag) := map_actividad texto_completo in
          let cantidad := cantidad_por_actividad actividad in
          list_to_map
            [ ("cuit_pre", cuit_emisor);
              ("codigo_cbte", default [] codigo_cbte);
              ("pv", default [] pv);
              ("nro", default [] nro);
              ("fecha_cbte", fecha_cbte);
              ("tipo_emision", o_bien tipo_emision (txt "E"));
              ("nro_cae", o_bien nro_cae []);
              ("importe", o_bien importe (txt "0"));
              ("periodo", periodo);
              ("actividad", actividad);
              ("cantidad", cantidad);
              ("dep", dep_flag) ]%string
  end.

(** *** The submission line *)

(** A row of the spreadsheet of beneficiaries. *)
Record fila := {
  cuil : str;
  codigo_certificado : str;
  vencimiento_certificado : str;
  provincia : str
}.

Definition claves_requeridas : list string :=
  [ "cuit_pre"; "codigo_cbte"; "pv"; "nro"; "fecha_cbte"; "tipo_emision";
    "nro_cae"; "importe"; "periodo"; "actividad"; "cantidad"; "dep" ]%string.

(** The 19 fields of the line, before they are joined. *)
Definition campos_linea (rnos : str) (fila_excel : fila) (info_pdf : dict)
    : list str :=
  let pv_limpio := zfill 5 (info_pdf !!! "pv"%string) in
  let nro_limpio := zfill 8 (info_pdf !!! "nro"%string) in
  let importe_limpio := zfill 14 (info_pdf !!! "importe"%string) in
  let codigo_cert := codigo_certificado fila_excel in
  let codigo_cert :=
    if (38 <? length codigo_cert)%nat then take 38 codigo_cert
    else ljust 38 "0" codigo_cert in
  [ txt "DS";
    rnos;
    cuil fila_excel;
    codigo_cert;
    vencimiento_certificado fila_excel;
    info_pdf !!! "periodo"%string;
    info_pdf !!! "cuit_pre"%string;
    info_pdf !!! "codigo_cbte"%string;
    info_pdf !!! "tipo_emision"%string;
    info_pdf !!! "fecha_cbte"%string;
    info_pdf !!! "nro_cae"%string;
    pv_limpio;
    nro_limpio;
    importe_limpio;
    importe_limpio;
    info_pdf !!! "actividad"%string;
    info_pdf !!! "cantidad"%string;
    provincia fila_excel;
    info_pdf !!! "dep"%string ].

Definition construir_linea (rnos : str) (fila_excel : fila) (info_pdf : dict)
    : option str :=
  if forallb (fun k => bool_decide (is_Some (info_pdf !! k))) claves_requeridas
  then Some (join (txt "|") (campos_linea rnos fila_excel info_pdf))
  else None.

(** *** The main procedure

    What [main] computes between its calls to the drive: the number of the
    insurer from what the operator typed, the documents kept by issuer, and
    the lines of the file. *)

(** The RNOS: what was typed, without the characters that are no digits when
    there are such, filled with zeros and cut to six characters. *)
Definition main_rnos (entrada : str) : str :=
  let rnos := strip entrada in
  let rnos :=
    if negb (isdigit rnos) then filter (fun c => is_digit_char c) rnos
    else rnos in
  take 6 (zfill 6 rnos).

(** A file of the folder: its name, what the readers give for its pages, and
    the clock when it is read. *)
Record archivo := { name : str; paginas : documento; reloj : datetime }.

(** An entry of [pdf_cache]. *)
Record entrada := { info : dict; nombre : str }.

(** The loop over the files: the fields of a document are kept under the tax
    id of its issuer. *)
Definition main_pdf_cache (pdfs : list archivo) : gmap str entrada :=
  foldl (fun pdf_cache pdf =>
           let info := extraer_info_pdf (reloj pdf) (paginas pdf) in
           if negb (bool_decide (info = ∅))
              && bool_decide (is_Some (info !! "cuit_pre"%string))
              && truthy (info !! "cuit_pre"%string)
           then <[info !!! "cuit_pre"%string :=
                   {| info := info; nombre := name pdf |}]> pdf_cache
           else pdf_cache)
        ∅ pdfs.

(** The loop over the rows of the spreadsheet: the lines written, the rows
    processed and the rows in error. *)
Definition main_lineas (rnos : str) (filas : list fila)
    (pdf_cache : gmap str entrada) : list str * nat * nat :=
  foldl (fun '(lineas_txt, registros_procesados, registros_con_error) fila =>
           let cuil := strip (cuil fila) in
           match pdf_cache !! cuil with
           | Some e =>
               match construir_linea rnos fila (info e) with
               | Some (c :: linea) =>
                   (lineas_txt ++ [c :: linea], S registros_procesados,
                    registros_con_error)
               | _ =>
                   (lineas_txt, registros_procesados,
                    S registros_con_error)
               end
           | None =>
               (lineas_txt, registros_procesados, S registros_con_error)
           end)
        ([], 0, 0) filas.

(** The file written: its name and its content; nothing is written when
    there is no line. *)
Definition main_txt (entrada : str) (filas : list fila) (pdfs : list archivo)
    : option (str * str) :=
  let rnos := main_rnos entrada in
  let pdf_cache := main_pdf_cache pdfs in
  let lineas_txt := (main_lineas rnos filas pdf_cache).1.1 in
  match lineas_txt with
  | [] => None
  | _ => Some (rnos ++ txt "_ds.txt", join [newline] lineas_txt)
  end.

(** [lineas_txt[0].split("|")[5]]; [None] stands for [IndexError]. *)
Definition periodo_txt (lineas_txt : list str) : option str :=
  linea ← head lineas_txt; split_char "|" linea !! 5.

End GeneraTxt.

(** ** [test_extraccion.py]: the line shown for one document *)

Module TestExtraccion.

(** The row that stands for the spreadsheet: the beneficiary is the issuer. *)
Definition excel_data (cuit_pre : str) : GeneraTxt.fila :=
  {| GeneraTxt.cuil := cuit_pre;
     GeneraTxt.codigo_certificado :=
       txt "ARG0100020545780489000000000000000000000";
     GeneraTxt.vencimiento_certificado := txt "30/03/2026";
     GeneraTxt.provincia := txt "00" |}.

(** [None] stands for the [KeyError] of a missing key. *)
Definition simular_linea_txt (info_pdf : dict) (rnos : str) : option str :=
  cuit_pre ← info_pdf !! "cuit_pre"%string;
  let excel_data := excel_data cuit_pre in
  pv ← info_pdf !! "pv"%string;
  nro ← info_pdf !! "nro"%string;
  importe ← info_pdf !! "importe"%string;
  let pv_limpio := zfill 5 pv in
  let nro_limpio := zfill 8 nro in
  let importe_limpio := zfill 14 importe in
  periodo ← info_pdf !! "periodo"%string;
  codigo_cbte ← info_pdf !! "codigo_cbte"%string;
  tipo_emision ← info_pdf !! "tipo_emision"%string;
  fecha_cbte ← info_pdf !! "fecha_cbte"%string;
  nro_cae ← info_pdf !! "nro_cae"%string;
  actividad ← info_pdf !! "actividad"%string;
  cantidad ← info_pdf !! "cantidad"%string;
  dep ← info_pdf !! "dep"%string;
  Some (join (txt "|")
    [ txt "DS";
      rnos;
      GeneraTxt.cuil excel_data;
      take 38 (ljust 38 "0" (GeneraTxt.codigo_certificado excel_data));
      GeneraTxt.vencimiento_certificado excel_data;
      periodo;
      cuit_pre;
      codigo_cbte;
      tipo_emision;
      fecha_cbte;
      nro_cae;
      pv_limpio;
      nro_limpio;
      importe_limpio;
      importe_limpio;
      actividad;
      cantidad;
      GeneraTxt.provincia excel_data;
      dep ]).

End TestExtraccion.

(** ** [analizar_directorio.py]: the state of one document in the report *)

Module AnalizarDirectorio.

Definition campos_criticos : list string :=
  [ "cuit_pre"; "codigo_cbte"; "pv"; "nro"; "fecha_cbte" ]%string.

(** [[c for c in campos_criticos if c not in info or not info[c]]] *)
Definition faltantes (info : dict) : list string :=
  filter (fun c => negb (truthy (info !! c))) campos_criticos.

Definition estado (info : dict) : str :=
  match faltantes info with
  | [] => txt "OK"
  | f =>
      txt "Incompleto (faltan: " ++ join (txt ", ") (map txt f) ++ txt ")"
  end.

(** The row of the report for one document, [pdf] being its file name. *)
Definition analizar_pdf (ahora : datetime) (pdf : str) (doc : documento)
    : dict :=
  let info := GeneraTxt.extraer_info_pdf ahora doc in
  <["nombre_archivo"%string := pdf]> (<["estado"%string := estado info]> info).

(** The columns of the report. *)
Definition campos : list string :=
  [ "nombre_archivo"; "cuit_pre"; "codigo_cbte"; "pv"; "nro";
    "fecha_cbte"; "tipo_emision"; "nro_cae"; "importe";
    "periodo"; "actividad"; "cantidad"; "dep"; "estado" ]%string.

(** The files of the directory that are analysed. *)
Definition es_pdf (f : str) : bool := endswith (lower f) (txt ".pdf").

(** The records of the report, one per document, in the order of the
    listing. *)
Definition resultados (archivos : list GeneraTxt.archivo) : list dict :=
  (fun a => analizar_pdf (GeneraTxt.reloj a) (GeneraTxt.name a)
              (GeneraTxt.paginas a))
  <$> filter (fun a => es_pdf (GeneraTxt.name a)) archivos.

(** [{campo: r.get(campo, "") for campo in campos}], as the values in the
    order of the columns. *)
Definition fila_csv (r : dict) : list str :=
  (fun campo => default [] (r !! campo)) <$> campos.

(** [sum(1 for r in resultados if r.get("estado") == "OK")] *)
Definition ok_count (resultados : list dict) : nat :=
  length (filter (fun r => r !! "estado"%string = Some (txt "OK")) resultados).

End AnalizarDirectorio.

(** ** [renombrar_facturas.py]: identity of a document from its two pages *)

Module RenombrarFacturas.

Definition limpiar_numero (num_str : str) : str :=
  match py_int num_str with
  | Some n => py_str n
  | None => num_str
  end.

(** \b(\d{2}-?\d{8}-?\d{1})\b *)
Definition patron_cuit : regex :=
  seqs [Bnd;
        Grp 1 (seqs [Rep 2 d; Opt (ch "-"); Rep 8 d; Opt (ch "-"); Rep 1 d]);
        Bnd].

Definition extraer_cuit (texto : str) : option str :=
  match re_search patron_cuit texto re_none with
  | Some m => Some (remove_char "-" (group_str 1 m))
  | None => None
  end.

(** (FACTURA|RECIBO) *)
Definition patron_tipo : regex := Grp 1 (Alt (Lit "FACTURA") (Lit "RECIBO")).
(** ([BC])\s*COD\.?\s*\d* *)
Definition patron_letra_cod : regex :=
  seqs [Grp 1 BC; Star true sp; Lit "COD"; Opt (ch "."); Star true sp;
        Star true d].
(** (^|\n)\s*([BC])\s*(\n|$) *)
Definition patron_letra_suelta : regex :=
  seqs [Grp 1 (Alt Bol (ch newline)); Star true sp; Grp 2 BC; Star true sp;
        Grp 3 (Alt (ch newline) Eol)].
(** \b([BC])\d{2,4}\b *)
Definition patron_letra_numerica : regex :=
  seqs [Bnd; Grp 1 BC; RepRange 2 4 d; Bnd].

Definition extraer_tipo_y_letra (texto : str) : option str * option str :=
  match re_search patron_tipo texto re_I with
  | None => (None, None)
  | Some tipo_match =>
      let tipo := Some (upper (group_str 1 tipo_match)) in
      match re_search patron_letra_cod texto re_I with
      | Some letra_cod => (tipo, Some (upper (group_str 1 letra_cod)))
      | None =>
      match re_search patron_letra_suelta texto re_I with
      | Some letra_suelta => (tipo, Some (upper (group_str 2 letra_suelta)))
      | None =>
      match re_search patron_letra_numerica texto re_I with
      | Some letra_numerica =>
          (tipo, Some (upper (group_str 1 letra_numerica)))
      | None => (None, None)
      end end end
  end.

Definition mapa : gmap (str * str) Z :=
  list_to_map
    [ ((txt "B", txt "FACTURA"), 3%Z);
      ((txt "B", txt "RECIBO"), 4%Z);
      ((txt "C", txt "FACTURA"), 5%Z);
      ((txt "C", txt "RECIBO"), 6%Z) ].

Definition tipo_y_letra_a_codigo (tipo letra : option str) : option Z :=
  if negb (truthy tipo) || negb (truthy letra) then None
  else t ← tipo; l ← letra; mapa !! (l, t).

Definition ceros : regex := Star true (ch "0").
Definition numero : regex := Plus d.

(** Punto\s*de\s*Venta:\s*.*Comp\.?\s*Nro:\s*0*(\d+)\s+0*(\d+) *)
Definition patron_a : regex :=
  seqs [Lit "Punto"; Star true sp; Lit "de"; Star true sp; Lit "Venta:";
        Star true sp; Star true (Sym Dot); Lit "Comp"; Opt (ch ".");
        Star true sp; Lit "Nro:"; Star true sp; ceros; Grp 1 numero; Plus sp;
        ceros; Grp 2 numero].
(** Nro\s+0*(\d+)-0*(\d+) *)
Definition patron_b : regex :=
  seqs [Lit "Nro"; Plus sp; ceros; Grp 1 numero; ch "-"; ceros; Grp 2 numero].
(** \b0*(\d+)-0*(\d+)\b *)
Definition patron_c : regex :=
  seqs [Bnd; ceros; Grp 1 numero; ch "-"; ceros; Grp 2 numero; Bnd].
(** (FAC\-)?([BC])\s*-\s*0*(\d+)\s*-\s*0*(\d+) *)
Definition patron_d : regex :=
  seqs [Opt (Grp 1 (Lit "FAC-")); Grp 2 BC; Star true sp; ch "-"; Star true sp;
        ceros; Grp 3 numero; Star true sp; ch "-"; Star true sp; ceros;
        Grp 4 numero].
(** (FAC\-)?([BC])\-0*(\d+)\-0*(\d+) *)
Definition patron_e : regex :=
  seqs [Opt (Grp 1 (Lit "FAC-")); Grp 2 BC; ch "-"; ceros; Grp 3 numero;
        ch "-"; ceros; Grp 4 numero].

Definition par (i j : nat) (m : rmatch_obj) : option str * option str :=
  (limpiar_numero <$> group i m, limpiar_numero <$> group j m).

Definition extraer_pv_nro (texto : str) : option str * option str :=
  match re_search patron_a texto re_DOTALL with
  | Some m => par 1 2 m
  | None =>
  match re_search patron_b texto re_none with
  | Some m => par 1 2 m
  | None =>
  match re_search patron_c texto re_none with
  | Some m => par 1 2 m
  | None =>
  match re_search patron_d texto re_I with
  | Some m => par 3 4 m
  | None =>
  match re_search patron_e texto re_I with
  | Some m => par 3 4 m
  | None => (None, None)
  end end end end end.

(** Truth value of an optional integer. *)
Definition truthy_int (o : option Z) : bool :=
  match o with
  | Some z => negb (z =? 0)%Z
  | None => false
  end.

(** The identity of a page: the values of [cuit], [codigo], [pv] and [nro]
    when [extraer_datos_flexible] reaches its last line. *)
Definition identidad_de (texto : str) : option (str * Z * str * str) :=
  let cuit := extraer_cuit texto in
  if negb (truthy cuit) then None
  else
    let '(tipo, letra) := extraer_tipo_y_letra texto in
    let codigo := tipo_y_letra_a_codigo tipo letra in
    let '(pv, nro) := extraer_pv_nro texto in
    let codigo :=
      if negb (truthy_int codigo) && bool_decide (letra = None) then
        match re_search patron_e texto re_I with
        | Some plan_de_letra =>
            let let_ := Some (upper (group_str 2 plan_de_letra)) in
            if truthy tipo then tipo_y_letra_a_codigo tipo let_ else codigo
        | None => codigo
        end
      else codigo in
    if negb (truthy cuit && truthy_int codigo && truthy pv && truthy nro)
    then None
    else Some (default [] cuit, default 0%Z codigo, default [] pv,
               default [] nro).

(** [f"{cuit}_{codigo}_{pv}_{nro}.pdf"] *)
Definition nombre (i : str * Z * str * str) : str :=
  let '(cuit, codigo, pv, nro) := i in
  cuit ++ txt "_" ++ py_str codigo ++ txt "_" ++ pv ++ txt "_" ++ nro
  ++ txt ".pdf".

Definition extraer_datos_flexible (texto : str) : option str :=
  nombre <$> identidad_de texto.

(** The two failures of the reconciliation; the source reports them as the
    messages "Inconsistencia entre página 1 y 2" and "No se pudo extraer
    información de ninguna página". *)
Inductive error := Inconsistencia | SinInformacion.

Definition textos (doc : documento) : str * str :=
  if (length (strip (pagina1 doc ++ pagina2 doc)) <? 20)%nat
  then (ocr1 doc, ocr2 doc)
  else (pagina1 doc, pagina2 doc).

Definition extraer_desde_dos_paginas (doc : documento)
    : option str * option error :=
  let '(texto_1, texto_2) := textos doc in
  let datos1 := extraer_datos_flexible texto_1 in
  let datos2 := extraer_datos_flexible texto_2 in
  if truthy datos1 && truthy datos2 then
    if bool_decide (datos1 = datos2) then (datos1, None)
    else (None, Some Inconsistencia)
  else if truthy datos1 then (datos1, None)
  else if truthy datos2 then (datos2, None)
  else (None, Some SinInformacion).

(** [PATTERN_RENAMED]: ^[0-9]{11}_[1-9]\d*_[1-9]\d*_[1-9]\d*\.pdf$ *)
Definition del_0_al_9 : regex := Sym (OneOf (CChar <$> txt "0123456789")).
Definition del_1_al_9 : regex := Sym (OneOf (CChar <$> txt "123456789")).

Definition PATTERN_RENAMED : regex :=
  seqs [Bol; Rep 11 del_0_al_9;
        ch "_"; del_1_al_9; Star true d;
        ch "_"; del_1_al_9; Star true d;
        ch "_"; del_1_al_9; Star true d;
        ch "."; Lit "pdf"; Eol].

(** The test of [descargar_y_renombrar] for the files it leaves alone. *)
Definition ya_renombrado (nombre_original : str) : bool :=
  hay (re_match PATTERN_RENAMED nombre_original re_none).

End RenombrarFacturas.

(** ** [postprocesamiento/data_cleaner.py]

    The values of a record are texts or [None]; a key bound to [None] and a
    missing key are told apart. *)

Module DataCleaner.

Abbreviation valor := (option str).
Abbreviation registro := (gmap string valor).

(** [d.get(k)] *)
Definition get (d : registro) (k : string) : valor := d !! k ≫= id.

(** The value kept for one field: the stripped text, or the fallback when
    the text is missing or blank. *)
Definition limpiar_campo (datos_crudos fallbacks : registro) (campo : string)
    : valor :=
  match get datos_crudos campo with
  | None => get fallbacks campo
  | Some valor =>
      if bool_decide (strip valor = []) then get fallbacks campo
      else Some (strip valor)
  end.

(** The number "pv-nro" divided in two; a text with more than one hyphen
    raises in the unpacking and the record is left as it is. *)
Definition dividir_nro (datos_limpios : registro) : registro :=
  match get datos_limpios "nro" with
  | Some (c :: s) =>
      if bool_decide ("-"%char ∈ c :: s) then
        match split_char "-" (c :: s) with
        | [pv; nro_solo] =>
            <["nro"%string := Some (zfill 8 nro_solo)]>
              (<["pv"%string := Some (zfill 4 pv)]> datos_limpios)
        | _ => datos_limpios
        end
      else datos_limpios
  | _ => datos_limpios
  end.

Definition limpiar_y_validar (datos_crudos fallbacks : registro)
    (campos_requeridos : list string) : registro :=
  let datos_limpios :=
    foldl (fun datos_limpios campo =>
             <[campo := limpiar_campo datos_crudos fallbacks campo]>
               datos_limpios)
          ∅ campos_requeridos in
  dividir_nro datos_limpios.

End DataCleaner.

(** ** [main.py]: the fields expected and their defaults *)

Module Main.

Definition CAMPOS_REQUERIDOS : list string :=
  [ "cuit_pre"; "codigo_cpte"; "pv"; "nro"; "fecha_cbte";
    "tipo_emision"; "nro_cae"; "importe"; "periodo"; "actividad";
    "dep"; "cuil_afiliado_final"; "nombre_afiliado_final";
    "dni_afiliado" ]%string.

(** [strftime("%Y-%m-%d")] and [strftime("%Y%m")] *)
Definition strftime_Ymd (t : datetime) : str :=
  zfill 4 (str_nat (year t)) ++ txt "-" ++ zfill 2 (str_nat (month t))
  ++ txt "-" ++ zfill 2 (str_nat (day t)).

Definition strftime_Ym (t : datetime) : str :=
  zfill 4 (str_nat (year t)) ++ zfill 2 (str_nat (month t)).

Definition obtener_fallbacks (now : datetime) : DataCleaner.registro :=
  list_to_map
    [ ("fecha_cbte", Some (strftime_Ymd now));
      ("tipo_emision", Some (txt "E"));
      ("periodo", Some (strftime_Ym now));
      ("actividad", Some (txt "090"));
      ("dep", Some (txt "N"));
      ("cuit_pre", None);
      ("codigo_cpte", None);
      ("pv", None);
      ("nro", None);
      ("nro_cae", None);
      ("importe", None);
      ("cuil_afiliado_final", None);
      ("nombre_afiliado_final", None);
      ("dni_afiliado", None) ]%string.

(** The record of one invoice in [ejecutar_proceso_facturas], from what the
    model predicts for it. *)
Definition datos_limpios (now : datetime) (datos_crudos : DataCleaner.registro)
    : DataCleaner.registro :=
  DataCleaner.limpiar_y_validar datos_crudos (obtener_fallbacks now)
    CAMPOS_REQUERIDOS.

End Main.

(** ** [salida/output_generator.py]: the columns of the output

    A record is read through its keys, in the order of their insertion. *)

Module OutputGenerator.

Definition agregar_claves (headers : list string) (res : list string)
    : list string :=
  foldl (fun headers key =>
           if bool_decide (key ∈ headers) then headers else headers ++ [key])
        headers res.

(** The header of [generar_salida]; nothing is written for an empty list of
    results. *)
Definition headers (resultados : list (list string)) : option (list string) :=
  match resultados with
  | [] => None
  | primero :: _ => Some (foldl agregar_claves primero resultados)
  end.

End OutputGenerator.

(** ** The meaning of a pattern, as a relation

    [steps fl r p w s cs cs'] : from a position preceded by [p], pattern [r]
    can match the word [w] when [s] follows it, turning the captured groups
    [cs] into [cs']. *)

(** The character before the position once [w] has been read. *)
Definition prev_after (p : option ascii) (w : str) : option ascii :=
  match last w with
  | Some c => Some c
  | None => p
  end.

Inductive steps (fl : flags)
  : regex → option ascii → str → str → caps → caps → Prop :=
| st_eps p s cs :
    steps fl Eps p [] s cs cs
| st_sym c x p s cs :
    in_cset fl c x = true →
    steps fl (Sym c) p [x] s cs cs
| st_seq r1 r2 p w1 w2 s cs cs1 cs2 :
    steps fl r1 p w1 (w2 ++ s) cs cs1 →
    steps fl r2 (prev_after p w1) w2 s cs1 cs2 →
    steps fl (Seq r1 r2) p (w1 ++ w2) s cs cs2
| st_alt_l r1 r2 p w s cs cs' :
    steps fl r1 p w s cs cs' →
    steps fl (Alt r1 r2) p w s cs cs'
| st_alt_r r1 r2 p w s cs cs' :
    steps fl r2 p w s cs cs' →
    steps fl (Alt r1 r2) p w s cs cs'
| st_star_0 g r p s cs :
    steps fl (Star g r) p [] s cs cs
| st_star_S g r p w1 w2 s cs cs1 cs2 :
    steps fl r p w1 (w2 ++ s) cs cs1 →
    steps fl (Star g r) (prev_after p w1) w2 s cs1 cs2 →
    steps fl (Star g r) p (w1 ++ w2) s cs cs2
| st_grp n r p w s cs cs' :
    steps fl r p w s cs cs' →
    steps fl (Grp n r) p w s cs ((n, w) :: cs')
| st_bnd p s cs :
    xorb (is_word_opt p) (is_word_opt (head s)) = true →
    steps fl Bnd p [] s cs cs
| st_bol s cs :
    steps fl Bol None [] s cs cs
| st_eol p s cs :
    s = [] ∨ s = [newline] →
    steps fl Eol p [] s cs cs.

(** What the matcher owes to the relation: a successful run is a word of the
    pattern followed by a successful continuation. *)
Definition sound_at {A : Type} (fl : flags) (r : regex) : Prop :=
  ∀ p s cs (k : @cont A) a,
    rmatch fl r p s cs k = Some a →
    ∃ w s' cs', s = w ++ s' ∧ steps fl r p w s' cs cs'
                ∧ k (prev_after p w) s' cs' = Some a.

(** [w] is a word of [r] in some context. *)
Definition word_of (fl : flags) (r : regex) (w : str) : Prop :=
  ∃ p s cs cs', steps fl r p w s cs cs'.

(** [m] is the match of [r] at some position of some text. *)
Definition is_match (fl : flags) (r : regex) (m : rmatch_obj) : Prop :=
  ∃ p s, steps fl r p (m_whole m) s [] (m_caps m).

(** The patterns inside the groups numbered [n]. *)
Fixpoint bodies (n : nat) (r : regex) : list regex :=
  match r with
  | Seq r1 r2 | Alt r1 r2 => bodies n r1 ++ bodies n r2
  | Star _ r1 => bodies n r1
  | Grp m r1 => (if bool_decide (n = m) then [r1] else []) ++ bodies n r1
  | _ => []
  end.

(** Group [n] is captured by every match of the pattern. *)
Fixpoint sets_group (n : nat) (r : regex) : bool :=
  match r with
  | Seq r1 r2 => sets_group n r1 || sets_group n r2
  | Alt r1 r2 => sets_group n r1 && sets_group n r2
  | Grp m r1 => bool_decide (n = m) || sets_group n r1
  | _ => false
  end.

(** The length of every word of the pattern, when it is fixed. *)
Fixpoint wlen (r : regex) : option nat :=
  match r with
  | Eps | Bnd | Bol | Eol => Some 0
  | Sym _ => Some 1
  | Seq r1 r2 => a ← wlen r1; b ← wlen r2; Some (a + b)
  | Alt r1 r2 =>
      a ← wlen r1; b ← wlen r2;
      if bool_decide (a = b) then Some a else None
  | Star _ _ => None
  | Grp _ r1 => wlen r1
  end.

(** A lower bound on the length of the words of the pattern. *)
Fixpoint wmin (r : regex) : nat :=
  match r with
  | Sym _ => 1
  | Seq r1 r2 => wmin r1 + wmin r2
  | Alt r1 r2 => wmin r1 `min` wmin r2
  | Grp _ r1 => wmin r1
  | _ => 0
  end.

(** The character sets the pattern reads. *)
Fixpoint syms (r : regex) : list cset :=
  match r with
  | Sym c => [c]
  | Seq r1 r2 | Alt r1 r2 => syms r1 ++ syms r2
  | Star _ r1 | Grp _ r1 => syms r1
  | _ => []
  end.

(** ** The normaliser, in the words of the specification *)

(** A digit string: every character is one of 0-9. *)
Definition digit_string (s : str) : Prop := Forall (λ c, is_digit c = true) s.

Fixpoint drop_zeros (s : str) : str :=
  match s with
  | c :: s' => if bool_decide (c = "0"%char) then drop_zeros s' else s
  | [] => []
  end.

(** The digits of a number without leading zeros; zero is "0". *)
Definition strip_leading_zeros (s : str) : str :=
  match drop_zeros s with
  | [] => txt "0"
  | s' => s'
  end.

(** ** The record builder, in the words of the specification *)

(** The extracted fields are complete: every key the builder reads is there. *)
Definition completo (info : dict) : Prop :=
  Forall (λ k, is_Some (info !! k)) GeneraTxt.claves_requeridas.

(** How many times a character occurs in a text. *)
Definition count_char (c : ascii) (s : str) : nat :=
  length (filter (λ x, x = c) s).

(** The certificate code, cut or filled with zeros on the right. *)
Definition certificado_38 (f : GeneraTxt.fila) : str :=
  take 38 (GeneraTxt.codigo_certificado f ++ replicate 38 "0"%char).

(** The sample of the specification: complete fields whose amount is
    "150075", and the same with an amount of fifteen digits. *)
Definition info_ejemplo (importe : str) : dict :=
  list_to_map
    [ ("cuit_pre", txt "30123456789"); ("codigo_cbte", txt "05");
      ("pv", txt "4"); ("nro", txt "1234"); ("fecha_cbte", txt "07/03/2025");
      ("tipo_emision", txt "E"); ("nro_cae", txt "75012345678901");
      ("importe", importe); ("periodo", txt "032025");
      ("actividad", txt "090"); ("cantidad", txt "000004");
      ("dep", txt "N") ]%string.

(** The same row with a certificate code of forty characters. *)
Definition fila_larga : GeneraTxt.fila :=
  {| GeneraTxt.cuil := txt "20123456786";
     GeneraTxt.codigo_certificado :=
       txt "ARG0100020545780489000000000000000000000";
     GeneraTxt.vencimiento_certificado := txt "30/03/2026";
     GeneraTxt.provincia := txt "00" |}.

Definition fila_ejemplo : GeneraTxt.fila :=
  {| GeneraTxt.cuil := txt "20123456786";
     GeneraTxt.codigo_certificado := txt "ARG0100020545780489";
     GeneraTxt.vencimiento_certificado := txt "30/03/2026";
     GeneraTxt.provincia := txt "00" |}.


(** ** Checks on a pattern that can be computed *)

(** Every character of the modelled range. *)
Definition all_ascii : list ascii := ascii_of_nat <$> seq 0 256.

(** Every character of the set satisfies [P]. *)
Definition cset_within (fl : flags) (P : ascii → bool) (c : cset) : bool :=
  forallb (λ x, implb (in_cset fl c x) (P x)) all_ascii.

(** Every character a word of the pattern can hold satisfies [P]. *)
Definition chars_within (fl : flags) (P : ascii → bool) (r : regex) : bool :=
  forallb (cset_within fl P) (syms r).

(** The same for what group [n] can capture. *)
Definition group_within (fl : flags) (P : ascii → bool) (n : nat) (r : regex)
    : bool :=
  forallb (chars_within fl P) (bodies n r).

(** Group [n] always captures exactly [k] characters. *)
Definition group_len (n k : nat) (r : regex) : bool :=
  forallb (λ b, bool_decide (wlen b = Some k)) (bodies n r).

(** Group [n] always captures at least [k] characters. *)
Definition group_min (n k : nat) (r : regex) : bool :=
  forallb (λ b, (k <=? wmin b)%nat) (bodies n r).

(** ** The reconciler, in the words of the specification *)

(** The digits and the hyphen. *)
Definition digit_or_dash (c : ascii) : bool :=
  is_digit c || bool_decide (c = "-"%char).

(** Two pages of one invoice, and a page whose number differs. *)
Definition pagina_ejemplo (nro : string) : str :=
  txt "FACTURA" ++ [newline] ++ txt "C" ++ [newline]
  ++ txt "CUIT 30-12345678-9" ++ [newline] ++ txt "Nro 0004-0000" ++ txt nro.

Definition doc_ejemplo (p1 p2 : str) : documento :=
  {| pagina1 := p1; pagina2 := p2; ocr1 := []; ocr2 := [] |}.

(** ** The tax ids, in the words of the specification *)

(** What a match of a tax-id pattern yields: its group without hyphens. *)
Definition cuit_de (m : rmatch_obj) : str := remove_char "-" (group_str 1 m).

(** Every tax-id-like text of the document, pattern by pattern in the order
    of priority and, for one pattern, from left to right. *)
Definition candidatos (texto : str) : list str :=
  patron ← GeneraTxt.patrones_cuit;
  cuit_de <$> re_finditer patron texto re_I.

(** Adding one candidate to the ids collected so far. *)
Definition agregar (cuits : list str) (c : str) : list str :=
  if bool_decide (c ∉ cuits) && (length c =? 11)%nat then cuits ++ [c]
  else cuits.


(** Eleven characters. *)
Definition once (c : str) : Prop := length c = 11.

(** ** The extraction of a document, in the words of the specification *)

(** The record of a successful extraction: the identity found and, for the
    other fields, what their extractors give on the text. *)
Definition registro_de (ahora : datetime) (texto : str)
    (cuit codigo pv nro : str) : dict :=
  list_to_map
    [ ("cuit_pre", cuit);
      ("codigo_cbte", codigo);
      ("pv", pv);
      ("nro", nro);
      ("fecha_cbte", GeneraTxt.extraer_fecha ahora texto);
      ("tipo_emision",
       GeneraTxt.o_bien (GeneraTxt.extraer_cae texto).2 (txt "E"));
      ("nro_cae", GeneraTxt.o_bien (GeneraTxt.extraer_cae texto).1 []);
      ("importe",
       GeneraTxt.o_bien (GeneraTxt.extraer_importe texto) (txt "0"));
      ("periodo", GeneraTxt.extraer_periodo ahora texto);
      ("actividad", (GeneraTxt.map_actividad texto).1);
      ("cantidad",
       GeneraTxt.cantidad_por_actividad (GeneraTxt.map_actividad texto).1);
      ("dep", (GeneraTxt.map_actividad texto).2) ]%string.

(** The five fields without which there is no record. *)
Definition campos_identidad : list string :=
  [ "cuit_pre"; "codigo_cbte"; "pv"; "nro"; "fecha_cbte" ]%string.

(** ** The issue date, in the words of the specification *)

(** The date labelled "Fecha de Emisión", when there is one. *)
Definition fecha_etiquetada (texto : str) : option rmatch_obj :=
  re_search GeneraTxt.patron_fecha_emision texto re_I.

(** The occurrences of dd/mm/yyyy, and those of dd-mm-yyyy. *)
Definition fechas_barras (texto : str) : list str :=
  re_findall GeneraTxt.fecha_barras texto re_none.
Definition fechas_guiones (texto : str) : list str :=
  re_findall GeneraTxt.fecha_guiones texto re_none.

(** A text with a labelled date followed by three more dates. *)
Definition texto_cuatro_fechas : str :=
  txt "Fecha de Emisi" ++ [o_acute]
  ++ txt "n: 01/01/2024 02/02/2024 03/03/2024 04/04/2024".

Definition ahora_ejemplo : datetime := {| year := 2025; month := 3; day := 7 |}.

(** A page of an invoice from which every field can be read, and a page that
    names no issuer. *)
Definition pagina_completa : str :=
  txt "FACTURA C" ++ [newline] ++ txt "CUIT: 30-12345678-9" ++ [newline]
  ++ txt "Punto de Venta: 00004 Comp. Nro: 00001234" ++ [newline]
  ++ txt "Importe Total: $ 1.500,75".

Definition pagina_sin_cuit : str := txt "FACTURA C  Nro 0004-00001234".

(** ** The letter of the document, in the words of the specification *)








(** A receipt whose letter stands alone on its line. *)
Definition pagina_letra_suelta : str :=
  txt "RECIBO" ++ [newline] ++ txt "C" ++ [newline]
  ++ txt "0001-00000001 CUIT: 30-12345678-9".
(** ** Words of a pattern at a position, and inclusion of patterns *)

(** Pattern [r] can match the word [w] after [p] and before [s], whatever the
    groups. *)
Definition accepts (fl : flags) (r : regex) (p : option ascii) (w s : str)
    : Prop :=
  ∃ cs cs', steps fl r p w s cs cs'.

(** Wherever [r] matches, [r'] matches the end of the same word. *)
Definition incl_re (fl : flags) (r r' : regex) : Prop :=
  ∀ p w s, accepts fl r p w s →
    ∃ w1 w2, w = w1 ++ w2 ∧ accepts fl r' (prev_after p w1) w2 s.

(** The same word at the same place. *)
Definition sub_re (fl : flags) (r r' : regex) : Prop :=
  ∀ p w s, accepts fl r p w s → accepts fl r' p w s.

(** ** Numerals *)

(** A decimal numeral: digits, at least one, and no leading zero unless the
    numeral is "0". *)
Definition numeral (s : str) : Prop :=
  digit_string s ∧ s ≠ [] ∧ (s = txt "0" ∨ head s ≠ Some "0"%char).

(** ** Shapes of what the patterns capture *)




(** Group 1 of the pattern is always captured, and holds digits, points and
    commas. *)
Definition es_monto (c : ascii) : bool :=
  is_digit c || bool_decide (c = "."%char) || bool_decide (c = ","%char).

Definition grupo_monto (fl : flags) (r : regex) : bool :=
  sets_group 1 r && group_within fl es_monto 1 r.


(** ** Dates *)

(** The character sets read one after the other by a pattern whose words all
    have the same form. *)
Fixpoint shape (r : regex) : option (list cset) :=
  match r with
  | Eps | Bnd | Bol | Eol => Some []
  | Sym c => Some [c]
  | Seq r1 r2 => a ← shape r1; b ← shape r2; Some (a ++ b)
  | Grp _ r1 => shape r1
  | Alt _ _ | Star _ _ => None
  end.

(** The form dd/mm/yyyy: two digits, a slash, two digits, a slash, four
    digits.  (Whether the day and the month exist is not part of it.) *)
Definition es_fecha (s : str) : bool :=
  match s with
  | [dd1; dd2; b1; mm1; mm2; b2; yy1; yy2; yy3; yy4] =>
      is_digit dd1 && is_digit dd2 && bool_decide (b1 = "/"%char)
      && is_digit mm1 && is_digit mm2 && bool_decide (b2 = "/"%char)
      && is_digit yy1 && is_digit yy2 && is_digit yy3 && is_digit yy4
  | _ => false
  end.

(** The form MMAAAA: six digits. *)
Definition es_periodo (s : str) : Prop := digit_string s ∧ length s = 6.

(** A clock whose date has a day, a month and a year written with four
    digits. *)
Definition reloj_valido (t : datetime) : Prop :=
  1 ≤ day t ≤ 31 ∧ 1 ≤ month t ≤ 12 ∧ length (str_nat (year t)) = 4.

(** A digit or a slash. *)
Definition digito_o_barra (c : ascii) : bool :=
  is_digit c || bool_decide (c = "/"%char).

(** The numbers below [n] are written with two digits by [zfill]: checked
    one by one. *)
Definition dos_digitos_hasta (n : nat) : bool :=
  forallb (λ k, match zfill 2 (str_nat k) with
                | [a; b] => is_digit a && is_digit b
                | _ => false
                end) (seq 0 n).

(** A text with a period whose month does not exist. *)
Definition texto_periodo_13 : str :=
  txt "Per" ++ [i_acute] ++ txt "odo Facturado Desde: 01/13/2025".

(** ** The record of a document and its line *)

(** The text does not hold the separator of the fields, nor the one of the
    lines. *)
Definition sin_separador (s : str) : Prop :=
  (("|"%char) ∉ s) ∧ (newline ∉ s).

(** The activity, the quantity and the dependency flag that go together. *)
Definition clasificaciones : list (str * str * str) :=
  [ (txt "096", txt "001500", txt "S"); (txt "096", txt "001500", txt "N");
    (txt "091", txt "000004", txt "N"); (txt "085", txt "000001", txt "N");
    (txt "089", txt "000001", txt "N"); (txt "090", txt "000004", txt "N");
    (txt "090", txt "000004", txt "S") ].

(** A row of the spreadsheet whose texts hold no separator. *)
Definition fila_limpia (f : GeneraTxt.fila) : Prop :=
  sin_separador (GeneraTxt.cuil f)
  ∧ sin_separador (GeneraTxt.codigo_certificado f)
  ∧ sin_separador (GeneraTxt.vencimiento_certificado f)
  ∧ sin_separador (GeneraTxt.provincia f).


(** ** Soundness of the matcher *)

Lemma prev_after_nil p : prev_after p [] = p.
Proof. reflexivity. Qed.

Lemma prev_after_app p w1 w2 :
  prev_after (prev_after p w1) w2 = prev_after p (w1 ++ w2).
Proof.
  unfold prev_after. rewrite last_app.
  destruct (last w2); [done|]. by destruct (last w1).
Qed.

Lemma prev_after_one p x : prev_after p [x] = Some x.
Proof. reflexivity. Qed.

Lemma consumed_app (w s : str) : consumed (w ++ s) s = w.
Proof.
  unfold consumed. rewrite length_app.
  replace (length w + length s - length s) with (length w) by lia.
  by rewrite take_app_length.
Qed.

Section Soundness.
Context {A : Type}.
Implicit Types (k : @cont A).

Lemma star_loop_sound fl g r k fuel p s cs a :
  sound_at (A:=A) fl r →
  star_loop (rmatch fl r) g k fuel p s cs = Some a →
  ∃ w s' cs', s = w ++ s' ∧ steps fl (Star g r) p w s' cs cs'
              ∧ k (prev_after p w) s' cs' = Some a.
Proof.
  intros Hr. revert p s cs a.
  induction fuel as [|fuel IH]; intros p s cs a; simpl.
  { intros Hk. exists [], s, cs. split_and!; [done|constructor|done]. }
  assert (Hstop : k p s cs = Some a →
    ∃ w s' cs', s = w ++ s' ∧ steps fl (Star g r) p w s' cs cs'
                ∧ k (prev_after p w) s' cs' = Some a).
  { intros Hk. exists [], s, cs. split_and!; [done|constructor|done]. }
  assert (Hmore :
    rmatch fl r p s cs (λ p' s' cs',
      if (length s' <? length s)%nat
      then star_loop (rmatch fl r) g k fuel p' s' cs' else None) = Some a →
    ∃ w s' cs', s = w ++ s' ∧ steps fl (Star g r) p w s' cs cs'
                ∧ k (prev_after p w) s' cs' = Some a).
  { intros Hm. apply Hr in Hm as (w1 & s1 & cs1 & -> & Hst & Hk).
    destruct (length s1 <? length (w1 ++ s1))%nat; [|done].
    apply IH in Hk as (w2 & s2 & cs2 & -> & Hst2 & Hk).
    exists (w1 ++ w2), s2, cs2. split_and!.
    - by rewrite app_assoc.
    - by econstructor.
    - by rewrite <-prev_after_app. }
  destruct g.
  - destruct (rmatch _ _ _ _ _ _) eqn:E; [|by auto].
    intros [= ->]. by apply Hmore.
  - destruct (k p s cs) eqn:E; [|by auto].
    intros [= ->]. by apply Hstop.
Qed.
End Soundness.

Lemma rmatch_sound {A} fl r : @sound_at A fl r.
Proof.
  revert A. induction r; intros A p s cs k a; cbn [rmatch].
  - intros Hk. exists [], s, cs. split_and!; [done|constructor|done].
  - destruct s as [|x s]; [done|].
    destruct (in_cset fl c x) eqn:E; [|done]. intros Hk.
    exists [x], s, cs. split_and!; [done|by constructor|done].
  - intros H. apply IHr1 in H as (w1 & s1 & cs1 & -> & Hst1 & H).
    apply IHr2 in H as (w2 & s2 & cs2 & -> & Hst2 & H).
    exists (w1 ++ w2), s2, cs2. split_and!.
    + by rewrite app_assoc.
    + by econstructor.
    + by rewrite <-prev_after_app.
  - destruct (rmatch fl r1 p s cs k) eqn:E.
    + intros [= ->]. apply IHr1 in E as (w & s' & cs' & -> & Hst & H).
      exists w, s', cs'. split_and!; [done|by apply st_alt_l|done].
    + intros H. apply IHr2 in H as (w & s' & cs' & -> & Hst & H).
      exists w, s', cs'. split_and!; [done|by apply st_alt_r|done].
  - intros H. eapply star_loop_sound; [|done]. apply IHr.
  - intros H. apply IHr in H as (w & s' & cs' & -> & Hst & H).
    rewrite consumed_app in H.
    exists w, s', ((n, w) :: cs'). split_and!; [done|by constructor|done].
  - destruct (xorb _ _) eqn:E; [|done]. intros Hk.
    exists [], s, cs. split_and!; [done|by constructor|done].
  - destruct p; [done|]. intros Hk.
    exists [], s, cs. split_and!; [done|constructor|done].
  - destruct s as [|c [|c' s]]; [| |done].
    + intros Hk. exists [], [], cs. split_and!; [done|constructor; auto|done].
    + case_bool_decide as Hc; [|done]. subst c. intros Hk.
      exists [], [newline], cs.
      split_and!; [done|constructor; auto|done].
Qed.

Lemma match_at_sound fl r p s m :
  match_at fl r p s = Some m →
  ∃ w s', s = w ++ s' ∧ m_whole m = w ∧ steps fl r p w s' [] (m_caps m).
Proof.
  unfold match_at. intros H.
  apply rmatch_sound in H as (w & s' & cs' & -> & Hst & [= <-]).
  exists w, s'. simpl. by rewrite consumed_app.
Qed.

Lemma match_at_is_match fl r p s m :
  match_at fl r p s = Some m → is_match fl r m.
Proof.
  intros H. apply match_at_sound in H as (w & s' & _ & <- & Hst).
  by exists p, s'.
Qed.

Lemma search_from_is_match fl r p s m :
  search_from fl r p s = Some m → is_match fl r m.
Proof.
  revert p. induction s as [|c s IH]; intros p; simpl.
  - destruct (match_at fl r p []) eqn:E; [|done].
    intros [= <-]. by eapply match_at_is_match.
  - destruct (match_at fl r p (c :: s)) eqn:E.
    + intros [= <-]. by eapply match_at_is_match.
    + apply IH.
Qed.

Lemma re_search_is_match r s fl m :
  re_search r s fl = Some m → is_match fl r m.
Proof. apply search_from_is_match. Qed.

Lemma finditer_from_is_match fl r p s k m :
  m ∈ finditer_from fl r p s k → is_match fl r m.
Proof.
  revert p k. induction s as [|c s IH]; intros p k; simpl.
  - destruct k; [|by intros ?%elem_of_nil].
    destruct (match_at fl r p []) eqn:E; [|by intros ?%elem_of_nil].
    intros ->%list_elem_of_singleton. by eapply match_at_is_match.
  - destruct k; [|by apply IH].
    destruct (match_at fl r p (c :: s)) eqn:E; [|by apply IH].
    intros [->|?]%elem_of_cons; [by eapply match_at_is_match|by eapply IH].
Qed.

Lemma re_finditer_is_match r s fl m :
  m ∈ re_finditer r s fl → is_match fl r m.
Proof. apply finditer_from_is_match. Qed.

(** ** What a match says about its groups and its length *)

Lemma steps_caps_mono fl r p w s cs cs' n :
  steps fl r p w s cs cs' → is_Some (cap_get n cs) → is_Some (cap_get n cs').
Proof.
  induction 1; auto. intros Hn. simpl. destruct (n =? n0)%nat; eauto.
Qed.

Lemma steps_sets_group fl r p w s cs cs' n :
  steps fl r p w s cs cs' → sets_group n r = true → is_Some (cap_get n cs').
Proof.
  induction 1; simpl; try done.
  - intros [?|?]%orb_true_iff; [|by auto].
    eapply steps_caps_mono; [done|]. auto.
  - intros [??]%andb_true_iff. auto.
  - intros [??]%andb_true_iff. auto.
  - intros [Hn|?]%orb_true_iff.
    + apply bool_decide_eq_true in Hn as ->. rewrite Nat.eqb_refl. eauto.
    + destruct (n =? n0)%nat; eauto.
Qed.

Lemma steps_bodies fl r p w s cs cs' n g :
  steps fl r p w s cs cs' →
  cap_get n cs' = Some g →
  cap_get n cs = Some g ∨ ∃ body, body ∈ bodies n r ∧ word_of fl body g.
Proof.
  induction 1; simpl; auto.
  - intros Hg. destruct (IHsteps2 Hg) as [Hg1|(b & Hb & Hw)].
    + destruct (IHsteps1 Hg1) as [?|(b & Hb & Hw)]; [by left|].
      right. exists b. split; [|done]. apply elem_of_app. by left.
    + right. exists b. split; [|done]. apply elem_of_app. by right.
  - intros Hg. destruct (IHsteps Hg) as [?|(b & Hb & Hw)]; [by left|].
    right. exists b. split; [|done]. apply elem_of_app. by left.
  - intros Hg. destruct (IHsteps Hg) as [?|(b & Hb & Hw)]; [by left|].
    right. exists b. split; [|done]. apply elem_of_app. by right.
  - intros Hg. destruct (IHsteps2 Hg) as [Hg1|(b & Hb & Hw)].
    + destruct (IHsteps1 Hg1) as [?|(b & Hb & Hw)]; [by left|].
      right. by exists b.
    + right. by exists b.
  - destruct (n =? n0)%nat eqn:E.
    + apply Nat.eqb_eq in E as ->. intros [= <-]. right. exists r.
      rewrite bool_decide_true by done. split; [by left|].
      by exists p, s, cs, cs'.
    + apply Nat.eqb_neq in E. intros Hg.
      destruct (IHsteps Hg) as [?|(b & Hb & Hw)]; [by left|].
      right. exists b. rewrite bool_decide_false by done. by split.
Qed.

Lemma steps_wlen fl r p w s cs cs' k :
  steps fl r p w s cs cs' → wlen r = Some k → length w = k.
Proof.
  intros H. revert k. induction H; intros k; simpl; try by intros [= <-].
  - destruct (wlen r1) as [a|]; [|done]. destruct (wlen r2) as [b|]; [|done].
    simpl. intros [= <-]. rewrite length_app. by rewrite (IHsteps1 a), (IHsteps2 b).
  - destruct (wlen r1) as [a|]; [|done]. destruct (wlen r2) as [b|]; [|done].
    simpl. case_bool_decide; [|done]. intros [= <-]. by apply IHsteps.
  - destruct (wlen r1) as [a|]; [|done]. destruct (wlen r2) as [b|]; [|done].
    simpl. case_bool_decide; [|done]. intros [= <-]. subst a. by apply IHsteps.
  - apply IHsteps.
Qed.

Lemma steps_wmin fl r p w s cs cs' :
  steps fl r p w s cs cs' → wmin r ≤ length w.
Proof.
  induction 1; simpl; try rewrite length_app; lia.
Qed.

Lemma steps_syms fl (P : ascii → Prop) r p w s cs cs' :
  steps fl r p w s cs cs' →
  (∀ c x, c ∈ syms r → in_cset fl c x = true → P x) →
  Forall P w.
Proof.
  induction 1; simpl; intros HP; try by constructor.
  - constructor; [|done]. eapply HP; [|done]. by left.
  - apply Forall_app. split.
    + apply IHsteps1. intros c x Hc. apply HP, elem_of_app. by left.
    + apply IHsteps2. intros c x Hc. apply HP, elem_of_app. by right.
  - apply IHsteps. intros c x Hc. apply HP, elem_of_app. by left.
  - apply IHsteps. intros c x Hc. apply HP, elem_of_app. by right.
  - apply Forall_app. split; auto.
  - auto.
Qed.

Lemma word_of_wlen fl r w k : word_of fl r w → wlen r = Some k → length w = k.
Proof. intros (p & s & cs & cs' & H). by eapply steps_wlen. Qed.

Lemma word_of_wmin fl r w : word_of fl r w → wmin r ≤ length w.
Proof. intros (p & s & cs & cs' & H). by eapply steps_wmin. Qed.

Lemma word_of_syms fl (P : ascii → Prop) r w :
  word_of fl r w →
  (∀ c x, c ∈ syms r → in_cset fl c x = true → P x) →
  Forall P w.
Proof. intros (p & s & cs & cs' & H). by eapply steps_syms. Qed.

Lemma is_match_whole fl r m : is_match fl r m → word_of fl r (m_whole m).
Proof. intros (p & s & H). by exists p, s, [], (m_caps m). Qed.

Lemma is_match_group fl r m n g :
  is_match fl r m → group (S n) m = Some g →
  ∃ body, body ∈ bodies (S n) r ∧ word_of fl body g.
Proof.
  intros (p & s & H) Hg. simpl in Hg.
  by destruct (steps_bodies _ _ _ _ _ _ _ _ _ H Hg) as [?|?].
Qed.

Lemma is_match_sets fl r m n :
  is_match fl r m → sets_group (S n) r = true → is_Some (group (S n) m).
Proof. intros (p & s & H) Hn. simpl. by eapply steps_sets_group. Qed.

(** The group, once it is known to be captured. *)
Lemma group_str_eq n m g : group n m = Some g → group_str n m = g.
Proof. unfold group_str. by intros ->. Qed.

Lemma is_match_group_str fl r m n :
  is_match fl r m → sets_group (S n) r = true →
  ∃ body, body ∈ bodies (S n) r ∧ word_of fl body (group_str (S n) m).
Proof.
  intros Hm Hs. destruct (is_match_sets _ _ _ _ Hm Hs) as [g Hg].
  rewrite (group_str_eq _ _ _ Hg). by eapply is_match_group.
Qed.

(** ** Computable checks on patterns *)

Lemma all_ascii_complete x : x ∈ all_ascii.
Proof.
  unfold all_ascii. apply list_elem_of_fmap.
  exists (nat_of_ascii x). split; [by rewrite ascii_nat_embedding|].
  apply elem_of_seq. pose proof (nat_ascii_bounded x). lia.
Qed.

Lemma cset_within_sound fl P c x :
  cset_within fl P c = true → in_cset fl c x = true → P x = true.
Proof.
  unfold cset_within. rewrite forallb_forall. intros H Hx.
  specialize (H x (proj1 (list_elem_of_In _ _) (all_ascii_complete x))).
  by rewrite Hx in H.
Qed.

Lemma chars_within_sound fl P r w :
  chars_within fl P r = true → word_of fl r w → Forall (λ x, P x = true) w.
Proof.
  unfold chars_within. rewrite forallb_forall. intros H Hw.
  eapply word_of_syms; [done|]. intros c x Hc%list_elem_of_In Hx.
  eapply cset_within_sound; eauto.
Qed.

Lemma group_within_sound fl P n r m g :
  group_within fl P (S n) r = true →
  is_match fl r m → group (S n) m = Some g → Forall (λ x, P x = true) g.
Proof.
  unfold group_within. rewrite forallb_forall. intros H Hm Hg.
  destruct (is_match_group _ _ _ _ _ Hm Hg) as (b & Hb%list_elem_of_In & Hw).
  eapply chars_within_sound; eauto.
Qed.

Lemma group_len_sound fl n k r m g :
  group_len (S n) k r = true →
  is_match fl r m → group (S n) m = Some g → length g = k.
Proof.
  unfold group_len. rewrite forallb_forall. intros H Hm Hg.
  destruct (is_match_group _ _ _ _ _ Hm Hg) as (b & Hb%list_elem_of_In & Hw).
  eapply word_of_wlen; [done|]. by eapply bool_decide_eq_true, H.
Qed.

Lemma group_min_sound fl n k r m g :
  group_min (S n) k r = true →
  is_match fl r m → group (S n) m = Some g → k ≤ length g.
Proof.
  unfold group_min. rewrite forallb_forall. intros H Hm Hg.
  destruct (is_match_group _ _ _ _ _ Hm Hg) as (b & Hb%list_elem_of_In & Hw).
  apply H, Nat.leb_le in Hb. pose proof (word_of_wmin _ _ _ Hw). lia.
Qed.

(** A group that every match captures, as [group_str] gives it. *)
Lemma group_str_within fl P n r m :
  sets_group (S n) r = true → group_within fl P (S n) r = true →
  is_match fl r m → Forall (λ x, P x = true) (group_str (S n) m).
Proof.
  intros Hs Hw Hm. destruct (is_match_sets _ _ _ _ Hm Hs) as [g Hg].
  rewrite (group_str_eq _ _ _ Hg). by eapply group_within_sound.
Qed.

Lemma group_str_len fl n k r m :
  sets_group (S n) r = true → group_len (S n) k r = true →
  is_match fl r m → length (group_str (S n) m) = k.
Proof.
  intros Hs Hw Hm. destruct (is_match_sets _ _ _ _ Hm Hs) as [g Hg].
  rewrite (group_str_eq _ _ _ Hg). by eapply group_len_sound.
Qed.

Lemma group_str_min fl n k r m :
  sets_group (S n) r = true → group_min (S n) k r = true →
  is_match fl r m → k ≤ length (group_str (S n) m).
Proof.
  intros Hs Hw Hm. destruct (is_match_sets _ _ _ _ Hm Hs) as [g Hg].
  rewrite (group_str_eq _ _ _ Hg). by eapply group_min_sound.
Qed.

(** ** The fuel of a repetition is never used up *)

Lemma star_loop_ext {A} (body : option ascii → str → caps → @cont A → option A)
    g (k1 k2 : @cont A) fuel p s cs :
  (∀ p s cs (c1 c2 : @cont A),
     (∀ p' s' cs', c1 p' s' cs' = c2 p' s' cs') →
     body p s cs c1 = body p s cs c2) →
  (∀ p' s' cs', k1 p' s' cs' = k2 p' s' cs') →
  star_loop body g k1 fuel p s cs = star_loop body g k2 fuel p s cs.
Proof.
  intros Hbody Hk. revert p s cs.
  induction fuel as [|fuel IH]; intros p s cs; simpl; [apply Hk|].
  rewrite (Hk p s cs).
  rewrite (Hbody p s cs _ (λ p' s' cs',
    if (length s' <? length s)%nat
    then star_loop body g k2 fuel p' s' cs' else None)); [done|].
  intros p' s' cs'. destruct (_ <? _)%nat; [apply IH|done].
Qed.

(** The matcher sees its continuation only through its results. *)
Lemma rmatch_ext {A} fl r p s cs (k1 k2 : @cont A) :
  (∀ p' s' cs', k1 p' s' cs' = k2 p' s' cs') →
  rmatch fl r p s cs k1 = rmatch fl r p s cs k2.
Proof.
  revert p s cs k1 k2.
  induction r; intros p s cs k1 k2 Hk; cbn [rmatch]; rewrite ?Hk; try done.
  - destruct s as [|x s]; [done|]. by rewrite Hk.
  - apply IHr1. intros p' s' cs'. by apply IHr2.
  - by rewrite (IHr1 p s cs k1 k2 Hk), (IHr2 p s cs k1 k2 Hk).
  - apply star_loop_ext; [|done]. intros. by apply IHr.
  - apply IHr. intros p' s' cs'. apply Hk.
Qed.

(** Any fuel above the length of the text gives the same result: the loop of
    a repetition ends because every iteration consumes a character, not
    because its fuel ends. *)
Lemma star_loop_fuel {A} fl r g (k : @cont A) n1 n2 p s cs :
  length s < n1 → length s < n2 →
  star_loop (rmatch fl r) g k n1 p s cs = star_loop (rmatch fl r) g k n2 p s cs.
Proof.
  revert n2 p s cs. induction n1 as [|n1 IH]; intros n2 p s cs H1 H2; [lia|].
  destruct n2 as [|n2]; [lia|]. simpl.
  rewrite (rmatch_ext fl r p s cs _ (λ p' s' cs',
    if (length s' <? length s)%nat
    then star_loop (rmatch fl r) g k n2 p' s' cs' else None)); [done|].
  intros p' s' cs'. destruct (length s' <? length s)%nat eqn:E; [|done].
  apply Nat.ltb_lt in E. apply IH; lia.
Qed.

(** ** The normaliser (C9) *)

Lemma is_digit_cases c :
  is_digit c = true →
  c ∈ ["0"; "1"; "2"; "3"; "4"; "5"; "6"; "7"; "8"; "9"]%char.
Proof.
  destruct c as [[] [] [] [] [] [] [] []]; intros H; vm_compute in H;
    try discriminate H; rewrite !elem_of_cons;
    repeat (first [left; reflexivity | right]).
Qed.

Ltac digit_cases H :=
  apply is_digit_cases in H; rewrite !elem_of_cons, elem_of_nil in H;
  destruct H as [->|[->|[->|[->|[->|[->|[->|[->|[->|[->|[]]]]]]]]]]].

Lemma is_digit_not_space c : is_digit c = true → is_space c = false.
Proof. intros H. by digit_cases H. Qed.

Lemma is_digit_digit_char c : is_digit c = true → is_digit_char c = true.
Proof. unfold is_digit_char. by intros ->. Qed.

Lemma lstrip_digits s : digit_string s → lstrip s = s.
Proof. intros [|c s' Hc _]; simpl; [done|]. by rewrite is_digit_not_space. Qed.

Lemma strip_digits s : digit_string s → strip s = s.
Proof.
  intros H. unfold strip. rewrite (lstrip_digits s H), lstrip_digits.
  - apply reverse_involutive.
  - by apply Forall_reverse.
Qed.

Lemma int_digits_digits s : digit_string s → int_digits s true = Some s.
Proof.
  induction 1 as [|c s Hc _ IH]; simpl; [done|]. by rewrite Hc, IH.
Qed.

Lemma uint_of_digits_digits s :
  digit_string s → ∃ u, uint_of_digits s = Some u ∧ digits_of_uint u = s.
Proof.
  induction 1 as [|c s Hc _ (u & Hu & Hs)]; simpl; [by exists Nil|].
  rewrite Hu. simpl. digit_cases Hc; eexists; (split; [done|]); simpl; by rewrite Hs.
Qed.

Lemma digits_of_uint_digits u : digit_string (digits_of_uint u).
Proof. induction u; simpl; by constructor. Qed.

Lemma drop_zeros_nzhead u :
  digits_of_uint (nzhead u) = drop_zeros (digits_of_uint u).
Proof. induction u; simpl; done. Qed.

Lemma digits_of_unorm u :
  digits_of_uint (unorm u) = strip_leading_zeros (digits_of_uint u).
Proof.
  unfold unorm, strip_leading_zeros. rewrite <-drop_zeros_nzhead.
  by destruct (nzhead u).
Qed.

Lemma py_str_of_N n : py_str (Z.of_N n) = str_N n.
Proof. by destruct n. Qed.

(** On a digit string that is not empty, [int] followed by [str] strips the
    leading zeros. *)
Lemma py_int_digits s :
  digit_string s → s ≠ [] →
  ∃ n, py_int s = Some (Z.of_N n) ∧ str_N n = strip_leading_zeros s.
Proof.
  intros Hs Hne. destruct (uint_of_digits_digits s Hs) as (u & Hu & Hds).
  exists (N.of_uint u). split.
  - unfold py_int. rewrite (strip_digits s Hs).
    destruct Hs as [|c s' Hc Hs']; [done|].
    assert (bool_decide (c = "-"%char) = false) as -> by (by digit_cases Hc).
    assert (bool_decide (c = "+"%char) = false) as -> by (by digit_cases Hc).
    simpl. rewrite Hc. rewrite (int_digits_digits s' Hs'). simpl.
    unfold digits_value. by rewrite Hu.
  - unfold str_N. rewrite DecimalN.Unsigned.to_of, digits_of_unorm.
    by rewrite Hds.
Qed.

Lemma limpiar_numero_digits s :
  digit_string s → s ≠ [] →
  GeneraTxt.limpiar_numero s = strip_leading_zeros s
  ∧ RenombrarFacturas.limpiar_numero s = strip_leading_zeros s.
Proof.
  intros Hs Hne. destruct (py_int_digits s Hs Hne) as (n & Hn & Hstr).
  unfold GeneraTxt.limpiar_numero, RenombrarFacturas.limpiar_numero.
  rewrite Hn, py_str_of_N, Hstr.
  assert (isdigit s = true) as ->; [|done].
  unfold isdigit. rewrite bool_decide_false by done. simpl.
  apply forallb_forall. intros c Hc%list_elem_of_In.
  apply is_digit_digit_char. by eapply Forall_forall in Hs.
Qed.

Lemma limpiar_numero_nil :
  GeneraTxt.limpiar_numero [] = [] ∧ RenombrarFacturas.limpiar_numero [] = [].
Proof. done. Qed.

Lemma zfill_digits w s :
  digit_string s → zfill w s = replicate (w - length s) "0"%char ++ s.
Proof.
  intros Hs. unfold zfill. destruct (w <=? length s)%nat eqn:E.
  - apply Nat.leb_le in E. by replace (w - length s) with 0 by lia.
  - destruct Hs as [|c s' Hc _]; simpl.
    + by rewrite Nat.sub_0_r, app_nil_r.
    + assert (bool_decide (c = "+"%char) = false) as -> by (by digit_cases Hc).
      by assert (bool_decide (c = "-"%char) = false) as -> by (by digit_cases Hc).
Qed.

Lemma drop_zeros_digits s : digit_string s → digit_string (drop_zeros s).
Proof.
  induction 1 as [|c s Hc Hs IH]; simpl; [constructor|].
  case_bool_decide; [done|by constructor].
Qed.

Lemma strip_leading_zeros_digits s :
  digit_string s → digit_string (strip_leading_zeros s).
Proof.
  intros Hs%drop_zeros_digits. unfold strip_leading_zeros.
  destruct (drop_zeros s); [|done]. by repeat constructor.
Qed.

Lemma drop_zeros_length s : length (drop_zeros s) ≤ length s.
Proof. induction s as [|c s IH]; simpl; [done|]. case_bool_decide; simpl; lia. Qed.

Lemma drop_zeros_replicate s :
  s = replicate (length s - length (drop_zeros s)) "0"%char ++ drop_zeros s.
Proof.
  induction s as [|c s IH]; simpl; [done|]. case_bool_decide as Hc.
  - subst c. pose proof (drop_zeros_length s).
    replace (S (length s) - length (drop_zeros s))
      with (S (length s - length (drop_zeros s))) by lia.
    simpl. by rewrite <-IH.
  - simpl. by rewrite Nat.sub_diag.
Qed.

Lemma pad_strip_leading_zeros w s :
  s ≠ [] → length s ≤ w →
  replicate (w - length (strip_leading_zeros s)) "0"%char
    ++ strip_leading_zeros s
  = replicate (w - length s) "0"%char ++ s.
Proof.
  intros Hne Hw. pose proof (drop_zeros_length s) as Hl.
  pose proof (drop_zeros_replicate s) as Hs.
  unfold strip_leading_zeros. destruct (drop_zeros s) as [|c s'] eqn:E.
  - rewrite app_nil_r in Hs. simpl in *. rewrite Nat.sub_0_r in Hs.
    assert (length s ≠ 0) by (by destruct s).
    remember (length s) as n eqn:Hn. rewrite Hs, <-replicate_add.
    replace (w - n + n) with (S (w - 1)) by lia.
    by rewrite replicate_S_end.
  - remember (length s) as n eqn:Hn. rewrite Hs.
    rewrite app_assoc, <-replicate_add. simpl in *. do 2 f_equal. lia.
Qed.

(** C9.  For every digit string [s] and every width [w] with
    [length s ≤ w], zero-padding the number cleaned by [limpiar_numero]
    (leading zeros stripped through [int] and [str]) gives the same text as
    zero-padding [s] itself; this holds for the cleaner of [genera_txt.py]
    and for the one of [renombrar_facturas.py].  On a digit string that is
    not empty, and within the length that every interpreter converts, both
    cleaners return [s] without its leading zeros. *)
Theorem zfill_limpiar_numero (s : str) (w : nat) :
  digit_string s → length s ≤ w →
  zfill w (GeneraTxt.limpiar_numero s) = zfill w s
  ∧ zfill w (RenombrarFacturas.limpiar_numero s) = zfill w s
  ∧ (s ≠ [] → length s ≤ 4300 →
     GeneraTxt.limpiar_numero s = strip_leading_zeros s
     ∧ RenombrarFacturas.limpiar_numero s = strip_leading_zeros s).
Proof.
  intros Hs Hw. destruct (decide (s = [])) as [->|Hne].
  { split_and!; done. }
  destruct (limpiar_numero_digits s Hs Hne) as [-> ->].
  assert (zfill w (strip_leading_zeros s) = zfill w s) as Hz.
  { rewrite !zfill_digits by auto using strip_leading_zeros_digits.
    by apply pad_strip_leading_zeros. }
  split_and!; done.
Qed.

Lemma zfill_limpiar_numero_witness :
  digit_string (txt "00042") ∧ length (txt "00042") ≤ 8
  ∧ zfill 8 (GeneraTxt.limpiar_numero (txt "00042")) = txt "00000042".
Proof.
  assert (Hd : digit_string (txt "00042")) by (by repeat constructor).
  assert (Hl : length (txt "00042") ≤ 8) by (simpl; lia).
  split; [exact Hd|]. split; [exact Hl|].
  exact (eq_trans (proj1 (zfill_limpiar_numero (txt "00042") 8 Hd Hl))
                  eq_refl).
Defined.

(** ** The code of the document (C7) *)

Lemma CODIGO_CBTE_lookup (t l c : str) :
  GeneraTxt.CODIGO_CBTE !! (t, l) = Some c ↔
  (t, l, c) ∈ [ (txt "FACTURA", txt "B", txt "03");
                (txt "RECIBO", txt "B", txt "04");
                (txt "FACTURA", txt "C", txt "05");
                (txt "RECIBO", txt "C", txt "06") ].
Proof.
  unfold GeneraTxt.CODIGO_CBTE. cbn [list_to_map foldr uncurry].
  rewrite !lookup_insert_Some, lookup_empty, !elem_of_cons, elem_of_nil.
  cbn. intuition congruence.
Qed.

Lemma mapa_lookup (l t : str) (n : Z) :
  RenombrarFacturas.mapa !! (l, t) = Some n ↔
  (t, l, n) ∈ [ (txt "FACTURA", txt "B", 3%Z);
                (txt "RECIBO", txt "B", 4%Z);
                (txt "FACTURA", txt "C", 5%Z);
                (txt "RECIBO", txt "C", 6%Z) ].
Proof.
  unfold RenombrarFacturas.mapa. cbn [list_to_map foldr uncurry].
  rewrite !lookup_insert_Some, lookup_empty, !elem_of_cons, elem_of_nil.
  cbn. intuition congruence.
Qed.

Lemma codigo_de_spec (tipo letra : option str) (c : str) :
  GeneraTxt.codigo_de tipo letra = Some c ↔
  (tipo, letra, c) ∈
    [ (Some (txt "FACTURA"), Some (txt "B"), txt "03");
      (Some (txt "RECIBO"), Some (txt "B"), txt "04");
      (Some (txt "FACTURA"), Some (txt "C"), txt "05");
      (Some (txt "RECIBO"), Some (txt "C"), txt "06") ].
Proof.
  unfold GeneraTxt.codigo_de.
  destruct tipo as [[|a t]|], letra as [[|b l]|];
    cbn [truthy andb mbind option_bind];
    rewrite ?CODIGO_CBTE_lookup, !elem_of_cons, !elem_of_nil;
    cbn; intuition congruence.
Qed.

Lemma tipo_y_letra_a_codigo_spec (tipo letra : option str) (n : Z) :
  RenombrarFacturas.tipo_y_letra_a_codigo tipo letra = Some n ↔
  (tipo, letra, n) ∈
    [ (Some (txt "FACTURA"), Some (txt "B"), 3%Z);
      (Some (txt "RECIBO"), Some (txt "B"), 4%Z);
      (Some (txt "FACTURA"), Some (txt "C"), 5%Z);
      (Some (txt "RECIBO"), Some (txt "C"), 6%Z) ].
Proof.
  unfold RenombrarFacturas.tipo_y_letra_a_codigo.
  destruct tipo as [[|a t]|], letra as [[|b l]|];
    cbn [truthy negb orb mbind option_bind];
    rewrite ?mapa_lookup, !elem_of_cons, !elem_of_nil;
    cbn; intuition congruence.
Qed.

(** C7.  The code of a document is defined for exactly four pairs of type
    and letter: (FACTURA, B) gives "03", (RECIBO, B) gives "04",
    (FACTURA, C) gives "05" and (RECIBO, C) gives "06"; every other pair, and
    every pair with a missing component, gives no code.  The lookup of the
    renaming tool is defined for the same four pairs and gives the same codes
    as the numbers 3 to 6. *)
Theorem doc_code_lookup_exact :
  (∀ (tipo letra : option str) (c : str),
     GeneraTxt.codigo_de tipo letra = Some c ↔
     (tipo, letra, c) ∈
       [ (Some (txt "FACTURA"), Some (txt "B"), txt "03");
         (Some (txt "RECIBO"), Some (txt "B"), txt "04");
         (Some (txt "FACTURA"), Some (txt "C"), txt "05");
         (Some (txt "RECIBO"), Some (txt "C"), txt "06") ])
  ∧ (∀ letra, GeneraTxt.codigo_de None letra = None)
  ∧ (∀ tipo, GeneraTxt.codigo_de tipo None = None)
  ∧ (∀ (tipo letra : option str) (n : Z),
       RenombrarFacturas.tipo_y_letra_a_codigo tipo letra = Some n ↔
       (tipo, letra, n) ∈
         [ (Some (txt "FACTURA"), Some (txt "B"), 3%Z);
           (Some (txt "RECIBO"), Some (txt "B"), 4%Z);
           (Some (txt "FACTURA"), Some (txt "C"), 5%Z);
           (Some (txt "RECIBO"), Some (txt "C"), 6%Z) ])
  ∧ (∀ (tipo letra : option str) (c : str),
       GeneraTxt.codigo_de tipo letra = Some c ↔
       ∃ n, RenombrarFacturas.tipo_y_letra_a_codigo tipo letra = Some n
            ∧ c = zfill 2 (py_str n)).
Proof.
  split_and!.
  - apply codigo_de_spec.
  - by intros [[|??]|].
  - by intros [[|??]|].
  - apply tipo_y_letra_a_codigo_spec.
  - intros tipo letra c. rewrite codigo_de_spec. split.
    + rewrite !elem_of_cons, elem_of_nil.
      intros [[= -> -> ->]|[[= -> -> ->]|[[= -> -> ->]|[[= -> -> ->]|[]]]]];
        eexists; (split; [apply tipo_y_letra_a_codigo_spec;
                          rewrite !elem_of_cons; eauto 6|done]).
    + intros (n & Hn & ->). apply tipo_y_letra_a_codigo_spec in Hn.
      rewrite !elem_of_cons, elem_of_nil in Hn.
      destruct Hn as [[= -> -> ->]|[[= -> -> ->]|[[= -> -> ->]|[[= -> -> ->]|[]]]]];
        rewrite !elem_of_cons; cbn; eauto 6.
Qed.

Lemma doc_code_lookup_exact_witness :
  GeneraTxt.codigo_de (Some (txt "FACTURA")) (Some (txt "C")) = Some (txt "05")
  ∧ GeneraTxt.codigo_de (Some (txt "FACTURA")) (Some (txt "A")) = None.
Proof.
  split.
  - apply (proj1 doc_code_lookup_exact). rewrite !elem_of_cons. auto.
  - reflexivity.
Defined.

(** ** The activity classifier (C6) *)








(** ** The record builder (C4) *)

Lemma zfill_length w s : length (zfill w s) = w `max` length s.
Proof.
  unfold zfill. destruct (w <=? length s)%nat eqn:E.
  - apply Nat.leb_le in E. lia.
  - apply Nat.leb_gt in E. destruct s as [|c s]; simpl in *.
    + rewrite length_replicate. lia.
    + destruct (_ || _); simpl; rewrite length_app, length_replicate;
        simpl; lia.
Qed.

Lemma zfill_long w s : w ≤ length s → zfill w s = s.
Proof. intros H. unfold zfill. by apply Nat.leb_le in H as ->. Qed.

Lemma count_char_app c s1 s2 :
  count_char c (s1 ++ s2) = count_char c s1 + count_char c s2.
Proof. unfold count_char. by rewrite filter_app, length_app. Qed.

Lemma count_char_absent c s : c ∉ s → count_char c s = 0.
Proof.
  unfold count_char. induction s as [|x s IH]; [done|].
  intros [Hx Hs]%not_elem_of_cons. rewrite filter_cons_False by done. auto.
Qed.

(** The separator occurs once between two fields. *)
Lemma count_char_join c l :
  Forall (λ f, c ∉ f) l → count_char c (join [c] l) = length l - 1.
Proof.
  induction 1 as [|x l Hx Hl IH]; [done|].
  destruct l as [|y l].
  { simpl. by apply count_char_absent. }
  change (join [c] (x :: y :: l)) with (x ++ [c] ++ join [c] (y :: l)).
  rewrite !count_char_app, (count_char_absent c x Hx), IH.
  unfold count_char. rewrite filter_cons_True by done. simpl. lia.
Qed.

Lemma certificado_38_eq f :
  (if (38 <? length (GeneraTxt.codigo_certificado f))%nat
   then take 38 (GeneraTxt.codigo_certificado f)
   else ljust 38 "0" (GeneraTxt.codigo_certificado f))
  = certificado_38 f
  ∧ length (certificado_38 f) = 38.
Proof.
  unfold certificado_38, ljust. set (c := GeneraTxt.codigo_certificado f).
  split.
  - destruct (38 <? length c)%nat eqn:E.
    + apply Nat.ltb_lt in E. by rewrite take_app_le by lia.
    + apply Nat.ltb_ge in E. rewrite take_app_ge by done.
      by rewrite take_replicate, Nat.min_l by lia.
  - rewrite length_take, length_app, length_replicate. lia.
Qed.

Lemma completo_forallb info :
  forallb (λ k, bool_decide (is_Some (info !! k))) GeneraTxt.claves_requeridas
  = true ↔ completo info.
Proof.
  unfold completo. rewrite forallb_forall, Forall_forall.
  split; intros H k Hk.
  - eapply bool_decide_eq_true, H. by apply list_elem_of_In.
  - apply bool_decide_eq_true, H. by apply list_elem_of_In.
Qed.

Lemma info_ejemplo_completo importe : completo (info_ejemplo importe).
Proof.
  unfold completo, GeneraTxt.claves_requeridas.
  repeat (apply Forall_cons; split; [by eexists|]). by apply Forall_nil.
Qed.

(** An amount of fifteen digits is kept whole, so the amount field of a
    complete record is not always fourteen characters. *)
Lemma amount_field_not_always_14 :
  ¬ (∀ rnos fila_excel info, completo info →
       ∀ c, GeneraTxt.campos_linea rnos fila_excel info !! 13 = Some c →
            length c = 14).
Proof.
  intros H.
  specialize (H (txt "123456") fila_ejemplo
                (info_ejemplo (txt "123456789012345"))
                (info_ejemplo_completo _) (txt "123456789012345") eq_refl).
  discriminate H.
Qed.

(** C4.  The amount field overflows.  [construir_linea] announces an amount
    of fourteen digits ("# 14 dígitos", "# Importe total (14 dígitos)") and
    fills it with [zfill(14)], which never cuts: for the amount of fifteen
    digits that [extraer_importe] reads in "Importe Total: $
    1.234.567.890.123,45", the two amount fields of the line hold fifteen
    characters each.  The other widths are enforced where they are announced:
    in the same line the certificate code of forty characters is cut to 38,
    and [main] cuts the RNOS to six. *)
Theorem construir_linea_amount_overflow :
  GeneraTxt.extraer_importe (txt "Importe Total: $ 1.234.567.890.123,45")
  = Some (txt "123456789012345")
  ∧ completo (info_ejemplo (txt "123456789012345"))
  ∧ GeneraTxt.construir_linea (txt "123456") fila_larga
      (info_ejemplo (txt "123456789012345"))
    = Some (txt ("DS|123456|20123456786|ARG01000205457804890000000000000000000"
                 +:+ "|30/03/2026|032025|30123456789|05|E|07/03/2025"
                 +:+ "|75012345678901|00004|00001234|123456789012345"
                 +:+ "|123456789012345|090|000004|00|N"))
  ∧ (∃ c, GeneraTxt.campos_linea (txt "123456") fila_larga
            (info_ejemplo (txt "123456789012345")) !! 13 = Some c
          ∧ c = txt "123456789012345" ∧ length c = 15 ∧ length c ≠ 14)
  ∧ (∃ c, GeneraTxt.campos_linea (txt "123456") fila_larga
            (info_ejemplo (txt "123456789012345")) !! 14 = Some c
          ∧ length c = 15)
  ∧ length (GeneraTxt.codigo_certificado fila_larga) = 40
  ∧ (∃ c, GeneraTxt.campos_linea (txt "123456") fila_larga
            (info_ejemplo (txt "123456789012345")) !! 3 = Some c
          ∧ length c = 38)
  ∧ GeneraTxt.main_rnos (txt "1234567") = txt "123456".
Proof.
  split; [by vm_compute|]. split; [apply info_ejemplo_completo|].
  split; [by vm_compute|].
  split; [eexists; split; [reflexivity|]; by vm_compute|].
  split; [eexists; split; [reflexivity|]; by vm_compute|].
  split; [by vm_compute|].
  split; [eexists; split; [reflexivity|]; by vm_compute|].
  by vm_compute.
Qed.

(** X9.  The line of a record.  The builder gives a line exactly when the
    fields are complete.  The line is then the 19 fields of the submission
    format, in its order, joined by "|" (so 18 separators when no field holds
    one); the certificate code is exactly 38 characters, cut, or filled with
    "0" on the right; the amount is zero-padded on the left by [zfill(14)]:
    exactly 14 characters when the extracted amount has at most 14; and the
    same padded amount stands in the amount field and in the field after it.
    The amount "150075" stands as "00000000150075" in both. *)
Theorem construir_linea_fields (rnos : str) (fila_excel : GeneraTxt.fila)
    (info : dict) :
  (is_Some (GeneraTxt.construir_linea rnos fila_excel info) ↔ completo info)
  ∧ (completo info →
     let campos := GeneraTxt.campos_linea rnos fila_excel info in
     let importe := info !!! "importe"%string in
     GeneraTxt.construir_linea rnos fila_excel info
       = Some (join (txt "|") campos)
     ∧ length campos = 19
     ∧ campos =
       [ txt "DS"; rnos; GeneraTxt.cuil fila_excel; certificado_38 fila_excel;
         GeneraTxt.vencimiento_certificado fila_excel;
         info !!! "periodo"%string; info !!! "cuit_pre"%string;
         info !!! "codigo_cbte"%string; info !!! "tipo_emision"%string;
         info !!! "fecha_cbte"%string; info !!! "nro_cae"%string;
         zfill 5 (info !!! "pv"%string); zfill 8 (info !!! "nro"%string);
         zfill 14 importe; zfill 14 importe;
         info !!! "actividad"%string; info !!! "cantidad"%string;
         GeneraTxt.provincia fila_excel; info !!! "dep"%string ]
     ∧ (Forall (λ f, "|"%char ∉ f) campos →
        count_char "|" (join (txt "|") campos) = 18)
     ∧ length (certificado_38 fila_excel) = 38
     ∧ length (zfill 14 importe) = 14 `max` length importe
     ∧ (length importe ≤ 14 → length (zfill 14 importe) = 14)
     ∧ (14 ≤ length importe → zfill 14 importe = importe)
     ∧ campos !! 13 = Some (zfill 14 importe)
     ∧ campos !! 14 = Some (zfill 14 importe)
     ∧ (importe = txt "150075" →
        campos !! 13 = Some (txt "00000000150075")
        ∧ campos !! 14 = Some (txt "00000000150075"))).
Proof.
  split.
  - unfold GeneraTxt.construir_linea. rewrite <-completo_forallb.
    destruct (forallb _ _); split; try done; try (by eexists);
      by intros [? ?].
  - intros Hc campos importe.
    destruct (certificado_38_eq fila_excel) as [Hcert Hlen].
    assert (Hcampos : campos = [ txt "DS"; rnos; GeneraTxt.cuil fila_excel;
         certificado_38 fila_excel;
         GeneraTxt.vencimiento_certificado fila_excel;
         info !!! "periodo"%string; info !!! "cuit_pre"%string;
         info !!! "codigo_cbte"%string; info !!! "tipo_emision"%string;
         info !!! "fecha_cbte"%string; info !!! "nro_cae"%string;
         zfill 5 (info !!! "pv"%string); zfill 8 (info !!! "nro"%string);
         zfill 14 importe; zfill 14 importe;
         info !!! "actividad"%string; info !!! "cantidad"%string;
         GeneraTxt.provincia fila_excel; info !!! "dep"%string ]).
    { unfold campos, GeneraTxt.campos_linea. cbv zeta. by rewrite Hcert. }
    split_and!.
    + unfold GeneraTxt.construir_linea.
      by apply completo_forallb in Hc as ->.
    + by rewrite Hcampos.
    + done.
    + intros Hno. change (txt "|") with ["|"%char].
      rewrite (count_char_join "|" campos Hno).
      by rewrite Hcampos.
    + done.
    + apply zfill_length.
    + intros H. rewrite zfill_length. lia.
    + apply zfill_long.
    + by rewrite Hcampos.
    + by rewrite Hcampos.
    + intros Himp. rewrite Hcampos. simpl. by rewrite Himp.
Qed.

Lemma construir_linea_fields_witness :
  completo (info_ejemplo (txt "150075"))
  ∧ GeneraTxt.construir_linea (txt "123456") fila_ejemplo
      (info_ejemplo (txt "150075"))
    = Some (txt ("DS|123456|20123456786|ARG01000205457804890000000000000000000"
                 +:+ "|30/03/2026|032025|30123456789|05|E|07/03/2025"
                 +:+ "|75012345678901|00004|00001234|00000000150075"
                 +:+ "|00000000150075|090|000004|00|N")).
Proof.
  split; [apply info_ejemplo_completo|].
  exact (eq_trans
    (proj1 (proj2 (construir_linea_fields (txt "123456") fila_ejemplo
                     (info_ejemplo (txt "150075")))
                  (info_ejemplo_completo _)))
    eq_refl).
Defined.

(** ** The reconciler of the renaming tool (C3) *)

Lemma remove_dash_digits s :
  Forall (λ x, digit_or_dash x = true) s → digit_string (remove_char "-" s).
Proof.
  unfold remove_char. induction 1 as [|x s Hx _ IH]; [constructor|].
  apply orb_true_iff in Hx as [Hx|Hx%bool_decide_eq_true].
  - rewrite filter_cons_True; [by constructor|].
    intros ->. discriminate Hx.
  - by rewrite filter_cons_False by (by intros []).
Qed.

Lemma extraer_cuit_digits texto c :
  RenombrarFacturas.extraer_cuit texto = Some c → digit_string c.
Proof.
  unfold RenombrarFacturas.extraer_cuit.
  destruct (re_search _ _ _) as [m|] eqn:E; [|done]. intros [= <-].
  apply re_search_is_match in E. apply remove_dash_digits.
  by apply (group_str_within re_none digit_or_dash 0
              RenombrarFacturas.patron_cuit).
Qed.

Lemma limpiar_numero_r_digits g :
  digit_string g → digit_string (RenombrarFacturas.limpiar_numero g).
Proof.
  intros Hg. destruct (decide (g = [])) as [->|Hne]; [done|].
  destruct (limpiar_numero_digits g Hg Hne) as [_ ->].
  by apply strip_leading_zeros_digits.
Qed.

Lemma par_digits fl r i j m pv nro :
  group_within fl is_digit (S i) r = true →
  group_within fl is_digit (S j) r = true →
  is_match fl r m →
  RenombrarFacturas.par (S i) (S j) m = (pv, nro) →
  (∀ x, pv = Some x → digit_string x) ∧ (∀ x, nro = Some x → digit_string x).
Proof.
  intros Hi Hj Hm [= <- <-]. split; intros x.
  - destruct (cap_get (S i) (m_caps m)) as [g|] eqn:E; [|done].
    intros [= <-]. apply limpiar_numero_r_digits.
    by apply (group_within_sound fl is_digit i r m g).
  - destruct (cap_get (S j) (m_caps m)) as [g|] eqn:E; [|done].
    intros [= <-]. apply limpiar_numero_r_digits.
    by apply (group_within_sound fl is_digit j r m g).
Qed.

Lemma extraer_pv_nro_r_digits texto pv nro :
  RenombrarFacturas.extraer_pv_nro texto = (pv, nro) →
  (∀ x, pv = Some x → digit_string x) ∧ (∀ x, nro = Some x → digit_string x).
Proof.
  unfold RenombrarFacturas.extraer_pv_nro.
  destruct (re_search RenombrarFacturas.patron_a _ _) eqn:Ea.
  { apply re_search_is_match in Ea.
    by eapply (par_digits _ RenombrarFacturas.patron_a). }
  destruct (re_search RenombrarFacturas.patron_b _ _) eqn:Eb.
  { apply re_search_is_match in Eb.
    by eapply (par_digits _ RenombrarFacturas.patron_b). }
  destruct (re_search RenombrarFacturas.patron_c _ _) eqn:Ec.
  { apply re_search_is_match in Ec.
    by eapply (par_digits _ RenombrarFacturas.patron_c). }
  destruct (re_search RenombrarFacturas.patron_d _ _) eqn:Ed.
  { apply re_search_is_match in Ed.
    by eapply (par_digits _ RenombrarFacturas.patron_d). }
  destruct (re_search RenombrarFacturas.patron_e _ _) eqn:Ee.
  { apply re_search_is_match in Ee.
    by eapply (par_digits _ RenombrarFacturas.patron_e). }
  by intros [= <- <-].
Qed.

Lemma truthy_Some o : truthy o = true → ∃ x, o = Some x ∧ x ≠ [].
Proof. destruct o as [[|c s]|]; [done| |done]. by exists (c :: s). Qed.

Lemma codigo_values tipo letra n :
  RenombrarFacturas.tipo_y_letra_a_codigo tipo letra = Some n →
  n ∈ [3; 4; 5; 6]%Z.
Proof.
  intros H%tipo_y_letra_a_codigo_spec. rewrite !elem_of_cons in *.
  destruct H as [[= _ _ ->]|[[= _ _ ->]|[[= _ _ ->]|[[= _ _ ->]|H]]]]; auto.
  by apply elem_of_nil in H.
Qed.

(** The parts of an identity are digit strings and its code is 3, 4, 5 or
    6. *)
Lemma identidad_de_shape texto cuit n pv nro :
  RenombrarFacturas.identidad_de texto = Some (cuit, n, pv, nro) →
  digit_string cuit ∧ n ∈ [3; 4; 5; 6]%Z ∧ digit_string pv ∧ digit_string nro.
Proof.
  unfold RenombrarFacturas.identidad_de.
  destruct (RenombrarFacturas.extraer_cuit texto) as [c|] eqn:Ec; [|done].
  destruct (truthy (Some c)); [|done]. cbn [negb].
  destruct (RenombrarFacturas.extraer_tipo_y_letra texto) as [tipo letra].
  destruct (RenombrarFacturas.extraer_pv_nro texto) as [pv' nro'] eqn:Epn.
  apply extraer_pv_nro_r_digits in Epn as [Hpv Hnro].
  match goal with
  | |- context [true && RenombrarFacturas.truthy_int ?x] =>
      set (codigo := x)
  end.
  assert (Hcod : ∃ t l, codigo = RenombrarFacturas.tipo_y_letra_a_codigo t l).
  { unfold codigo. destruct (_ && _); [|by eauto].
    destruct (re_search _ _ _); [|by eauto].
    destruct (truthy tipo); by eauto. }
  destruct Hcod as (t & l & Hcod). clearbody codigo.
  destruct codigo as [z|]; [|done].
  destruct (RenombrarFacturas.truthy_int (Some z)); [|done].
  destruct pv' as [[|a pv']|], nro' as [[|b nro']|]; cbn; try done.
  intros [= <- <- <- <-]. split_and!; eauto using extraer_cuit_digits.
  by eapply codigo_values.
Qed.

Lemma digit_string_sep (x x' r r' : str) (c : ascii) :
  is_digit c = false → digit_string x → digit_string x' →
  x ++ c :: r = x' ++ c :: r' → x = x' ∧ r = r'.
Proof.
  intros Hc Hx. revert x'. induction Hx as [|a x Ha _ IH]; intros x' Hx'.
  - destruct Hx' as [|a' x' Ha' _]; simpl; [by intros [= ->]|].
    intros [= <- _]. congruence.
  - destruct Hx' as [|a' x' Ha' Hx']; simpl.
    + intros [= -> _]. congruence.
    + intros [= -> H]. by destruct (IH _ Hx' H) as [-> ->].
Qed.

Lemma py_str_codigo n n' :
  n ∈ [3; 4; 5; 6]%Z → n' ∈ [3; 4; 5; 6]%Z → py_str n = py_str n' → n = n'.
Proof.
  rewrite !elem_of_cons, !elem_of_nil.
  intros [->|[->|[->|[->|[]]]]] [->|[->|[->|[->|[]]]]]; by vm_compute.
Qed.

Lemma py_str_codigo_digits n : n ∈ [3; 4; 5; 6]%Z → digit_string (py_str n).
Proof.
  rewrite !elem_of_cons, !elem_of_nil.
  intros [->|[->|[->|[->|[]]]]]; by repeat constructor.
Qed.

(** Two identities with the same file name are the same identity. *)
Lemma nombre_inj texto1 texto2 a b :
  RenombrarFacturas.identidad_de texto1 = Some a →
  RenombrarFacturas.identidad_de texto2 = Some b →
  RenombrarFacturas.nombre a = RenombrarFacturas.nombre b → a = b.
Proof.
  destruct a as [[[c1 n1] p1] q1], b as [[[c2 n2] p2] q2].
  intros (Hc1 & Hn1 & Hp1 & Hq1)%identidad_de_shape
         (Hc2 & Hn2 & Hp2 & Hq2)%identidad_de_shape.
  unfold RenombrarFacturas.nombre. cbn [txt list_ascii_of_string app].
  intros H.
  apply digit_string_sep in H as [-> H]; [|done..].
  apply digit_string_sep in H as [Hn H];
    [|done|by apply py_str_codigo_digits..].
  apply digit_string_sep in H as [-> H]; [|done..].
  apply digit_string_sep in H as [-> _]; [|done..].
  by rewrite (py_str_codigo _ _ Hn1 Hn2 Hn).
Qed.

Lemma nombre_truthy i : truthy (Some (RenombrarFacturas.nombre i)) = true.
Proof.
  destruct i as [[[c n] p] q]. unfold RenombrarFacturas.nombre.
  destruct c; [done|done].
Qed.

(** C3.  The identities of the two pages being taken each from its own text:
    when both pages give the same identity it is accepted, without error;
    when they give different identities the result is the inconsistency error
    and no identity; when only one page gives an identity it is accepted; when
    none does the result is the error of missing data.  Two pages of the
    invoice 30123456789, code 5, point of sale 4, number 1234 are accepted;
    with the number 9999 on the second page they are inconsistent. *)
Theorem reconcile_two_pages (doc : documento) :
  let i1 := RenombrarFacturas.identidad_de (RenombrarFacturas.textos doc).1 in
  let i2 := RenombrarFacturas.identidad_de (RenombrarFacturas.textos doc).2 in
  let r := RenombrarFacturas.extraer_desde_dos_paginas doc in
  (∀ a, i1 = Some a → i2 = Some a →
        r = (Some (RenombrarFacturas.nombre a), None))
  ∧ (∀ a b, i1 = Some a → i2 = Some b → a ≠ b →
        r = (None, Some RenombrarFacturas.Inconsistencia))
  ∧ (∀ a, i1 = Some a → i2 = None →
        r = (Some (RenombrarFacturas.nombre a), None))
  ∧ (∀ b, i1 = None → i2 = Some b →
        r = (Some (RenombrarFacturas.nombre b), None))
  ∧ (i1 = None → i2 = None →
        r = (None, Some RenombrarFacturas.SinInformacion))
  ∧ RenombrarFacturas.identidad_de (pagina_ejemplo "1234")
    = Some (txt "30123456789", 5%Z, txt "4", txt "1234")
  ∧ RenombrarFacturas.identidad_de (pagina_ejemplo "9999")
    = Some (txt "30123456789", 5%Z, txt "4", txt "9999")
  ∧ RenombrarFacturas.extraer_desde_dos_paginas
      (doc_ejemplo (pagina_ejemplo "1234") (pagina_ejemplo "1234"))
    = (Some (txt "30123456789_5_4_1234.pdf"), None)
  ∧ RenombrarFacturas.extraer_desde_dos_paginas
      (doc_ejemplo (pagina_ejemplo "1234") (pagina_ejemplo "9999"))
    = (None, Some RenombrarFacturas.Inconsistencia).
Proof.
  intros i1 i2 r.
  assert (Hr : r =
    let datos1 := RenombrarFacturas.nombre <$> i1 in
    let datos2 := RenombrarFacturas.nombre <$> i2 in
    if truthy datos1 && truthy datos2 then
      if bool_decide (datos1 = datos2) then (datos1, None)
      else (None, Some RenombrarFacturas.Inconsistencia)
    else if truthy datos1 then (datos1, None)
    else if truthy datos2 then (datos2, None)
    else (None, Some RenombrarFacturas.SinInformacion)).
  { unfold r, RenombrarFacturas.extraer_desde_dos_paginas, i1, i2.
    by destruct (RenombrarFacturas.textos doc). }
  split_and!.
  - intros a H1 H2. rewrite Hr, H1, H2. cbn [fmap option_fmap option_map].
    rewrite nombre_truthy. cbn [andb]. by rewrite bool_decide_true.
  - intros a b H1 H2 Hab. rewrite Hr. cbv zeta. rewrite H1, H2.
    cbn [fmap option_fmap option_map]. rewrite !nombre_truthy. cbn [andb].
    rewrite bool_decide_false; [done|]. intros [= Hn]. apply Hab.
    by eapply nombre_inj.
  - intros a H1 H2. rewrite Hr, H1, H2. cbn [fmap option_fmap option_map].
    by rewrite nombre_truthy.
  - intros b H1 H2. rewrite Hr, H1, H2. cbn [fmap option_fmap option_map].
    by rewrite nombre_truthy.
  - intros H1 H2. by rewrite Hr, H1, H2.
  - by vm_compute.
  - by vm_compute.
  - by vm_compute.
  - by vm_compute.
Qed.

Lemma reconcile_two_pages_witness :
  RenombrarFacturas.identidad_de
    (RenombrarFacturas.textos
       (doc_ejemplo (pagina_ejemplo "1234") (pagina_ejemplo "9999"))).1
  = Some (txt "30123456789", 5%Z, txt "4", txt "1234")
  ∧ RenombrarFacturas.identidad_de
    (RenombrarFacturas.textos
       (doc_ejemplo (pagina_ejemplo "1234") (pagina_ejemplo "9999"))).2
  = Some (txt "30123456789", 5%Z, txt "4", txt "9999")
  ∧ RenombrarFacturas.extraer_desde_dos_paginas
      (doc_ejemplo (pagina_ejemplo "1234") (pagina_ejemplo "9999"))
    = (None, Some RenombrarFacturas.Inconsistencia).
Proof.
  split; [by vm_compute|]. split; [by vm_compute|].
  apply (proj1 (proj2 (reconcile_two_pages
           (doc_ejemplo (pagina_ejemplo "1234") (pagina_ejemplo "9999"))))
         (txt "30123456789", 5%Z, txt "4", txt "1234")
         (txt "30123456789", 5%Z, txt "4", txt "9999")).
  - by vm_compute.
  - by vm_compute.
  - intros H. discriminate H.
Defined.

(** ** The issuer tax id (C1) *)

Lemma foldl_agregar_cuit cuits ms :
  foldl GeneraTxt.agregar_cuit cuits ms = foldl agregar cuits (cuit_de <$> ms).
Proof. revert cuits. induction ms as [|m ms IH]; intros cuits; simpl; auto. Qed.

Lemma extraer_cuits_candidatos texto :
  GeneraTxt.extraer_cuits texto = foldl agregar [] (candidatos texto).
Proof.
  unfold GeneraTxt.extraer_cuits, candidatos.
  generalize (@nil str). induction GeneraTxt.patrones_cuit as [|p ps IH];
    intros acc; simpl; [done|].
  by rewrite foldl_app, <-foldl_agregar_cuit, IH.
Qed.



Lemma agregar_elem_of acc cs c :
  c ∈ foldl agregar acc cs ↔ c ∈ acc ∨ (c ∈ cs ∧ once c).
Proof.
  revert acc. induction cs as [|x cs IH]; intros acc; simpl.
  - rewrite elem_of_nil. tauto.
  - rewrite IH, elem_of_cons. unfold agregar, once.
    destruct (bool_decide (x ∉ acc)) eqn:E1.
    + destruct (length x =? 11)%nat eqn:E2; simpl.
      * apply Nat.eqb_eq in E2. rewrite elem_of_app, list_elem_of_singleton.
        split; [intros [[?| ->]|[??]]|intros [?|[[->|?] ?]]]; auto.
      * apply Nat.eqb_neq in E2.
        split; [intros [?|[??]]|intros [?|[[->|?] ?]]]; auto. done.
    + apply bool_decide_eq_false in E1. simpl.
      assert (x ∈ acc) by (by destruct (decide (x ∈ acc))).
      split; [intros [?|[??]]|intros [?|[[->|?] ?]]]; auto.
Qed.




(** ** The extraction of a whole document *)

Lemma registro_de_lookup ahora texto cuit codigo pv nro :
  let r := registro_de ahora texto cuit codigo pv nro in
  r !! "cuit_pre"%string = Some cuit
  ∧ r !! "codigo_cbte"%string = Some codigo
  ∧ r !! "pv"%string = Some pv
  ∧ r !! "nro"%string = Some nro
  ∧ r !! "fecha_cbte"%string = Some (GeneraTxt.extraer_fecha ahora texto)
  ∧ r !! "periodo"%string = Some (GeneraTxt.extraer_periodo ahora texto)
  ∧ completo r
  ∧ r ≠ ∅.
Proof.
  split_and!; try reflexivity.
  - unfold completo, GeneraTxt.claves_requeridas.
    repeat (apply Forall_cons; split; [by eexists|]). by apply Forall_nil.
  - intros H. apply (f_equal (λ m : dict, m !! "pv"%string)) in H.
    discriminate H.
Qed.

(** The extraction either fails, with the empty record, or has found the
    issuer, the code, the sales point and the number, none of them empty. *)
Lemma extraer_info_pdf_cases ahora doc :
  let texto := GeneraTxt.texto_completo doc in
  let tl := GeneraTxt.tipo_letra_inferidos texto in
  let codigo := GeneraTxt.codigo_de tl.1 tl.2 in
  let pn := GeneraTxt.extraer_pv_nro texto in
  (GeneraTxt.extraer_info_pdf ahora doc = ∅
   ∧ (GeneraTxt.extraer_cuits texto = [] ∨ truthy codigo = false
      ∨ truthy pn.1 = false ∨ truthy pn.2 = false))
  ∨ (∃ cuit cs cod pv nro,
       GeneraTxt.extraer_cuits texto = cuit :: cs
       ∧ codigo = Some cod ∧ cod ≠ []
       ∧ pn = (Some pv, Some nro) ∧ pv ≠ [] ∧ nro ≠ []
       ∧ GeneraTxt.extraer_info_pdf ahora doc
         = registro_de ahora texto cuit cod pv nro).
Proof.
  intros texto tl codigo pn. unfold GeneraTxt.extraer_info_pdf.
  fold texto. destruct (GeneraTxt.extraer_cuits texto) as [|cuit cs] eqn:Ec.
  { left. auto. }
  fold tl. destruct tl as [tipo letra] eqn:Etl. cbn [fst snd] in codigo.
  fold codigo. destruct (truthy codigo) eqn:Ecod; cbn [negb]; [|left; auto].
  fold pn. destruct pn as [pv nro] eqn:Epn.
  destruct (truthy pv) eqn:Epv; cbn [negb orb]; [|left; auto].
  destruct (truthy nro) eqn:Enro; cbn [negb orb]; [|left; auto].
  right.
  apply truthy_Some in Ecod as (cod & Hcod & ?).
  apply truthy_Some in Epv as (pv' & -> & ?).
  apply truthy_Some in Enro as (nro' & -> & ?).
  exists cuit, cs, cod, pv', nro'. split_and!; try done.
  rewrite Hcod. unfold registro_de.
  destruct (GeneraTxt.extraer_cae texto), (GeneraTxt.map_actividad texto).
  done.
Qed.





(** ** The issue date (C5) and the period *)

Lemma re_findall_length r texto fl k w :
  wlen r = Some k → w ∈ re_findall r texto fl → length w = k.
Proof.
  unfold re_findall. intros Hk (m & -> & Hm%re_finditer_is_match)%list_elem_of_fmap.
  eapply word_of_wlen; [|done]. by apply is_match_whole.
Qed.

Lemma fechas_barras_length texto w : w ∈ fechas_barras texto → length w = 10.
Proof. by apply re_findall_length. Qed.

Lemma fechas_guiones_length texto w : w ∈ fechas_guiones texto → length w = 10.
Proof. by apply re_findall_length. Qed.

Lemma fecha_etiquetada_length texto m :
  fecha_etiquetada texto = Some m → length (group_str 1 m) = 10.
Proof.
  intros Hm%re_search_is_match.
  by apply (group_str_len re_I 0 10 GeneraTxt.patron_fecha_emision).
Qed.

Lemma strftime_dmY_length ahora : 8 ≤ length (strftime_dmY ahora).
Proof.
  unfold strftime_dmY. rewrite !length_app, !zfill_length. simpl. lia.
Qed.

Lemma replace_char_length a b s : length (replace_char a b s) = length s.
Proof. apply length_fmap. Qed.

(** The cascade of [extraer_fecha], rule by rule. *)
Lemma extraer_fecha_cascade ahora texto :
  (∀ m, fecha_etiquetada texto = Some m →
        GeneraTxt.extraer_fecha ahora texto = group_str 1 m)
  ∧ (fecha_etiquetada texto = None → 4 ≤ length (fechas_barras texto) →
     fechas_barras texto !! 3 = Some (GeneraTxt.extraer_fecha ahora texto))
  ∧ (fecha_etiquetada texto = None → length (fechas_barras texto) < 4 →
     ∀ f, head (fechas_barras texto) = Some f →
          GeneraTxt.extraer_fecha ahora texto = f)
  ∧ (fecha_etiquetada texto = None → fechas_barras texto = [] →
     ∀ f, head (fechas_guiones texto) = Some f →
          GeneraTxt.extraer_fecha ahora texto = replace_char "-" "/" f)
  ∧ (fecha_etiquetada texto = None → fechas_barras texto = [] →
     fechas_guiones texto = [] →
     GeneraTxt.extraer_fecha ahora texto = strftime_dmY ahora).
Proof.
  unfold GeneraTxt.extraer_fecha, fecha_etiquetada.
  fold (fechas_barras texto). fold (fechas_guiones texto).
  split_and!.
  - by intros m ->.
  - intros -> Hl. apply Nat.leb_le in Hl as Hl'. rewrite Hl'.
    destruct (fechas_barras texto !! 3) eqn:E; [done|].
    apply lookup_ge_None in E. lia.
  - intros -> Hl f Hf. apply Nat.leb_gt in Hl as ->.
    by destruct (fechas_barras texto) as [|f' ?]; simplify_eq/=.
  - intros -> -> f Hf. simpl.
    by destruct (fechas_guiones texto) as [|f' ?]; simplify_eq/=.
  - by intros -> -> ->.
Qed.

(** The issue date is never the empty text. *)
Lemma extraer_fecha_length ahora texto :
  8 ≤ length (GeneraTxt.extraer_fecha ahora texto).
Proof.
  destruct (extraer_fecha_cascade ahora texto) as (H1 & H2 & H3 & H4 & H5).
  destruct (fecha_etiquetada texto) as [m|] eqn:Em.
  { rewrite (H1 m eq_refl), (fecha_etiquetada_length _ _ Em). lia. }
  destruct (decide (4 ≤ length (fechas_barras texto))) as [Hl|Hl].
  { specialize (H2 eq_refl Hl).
    rewrite (fechas_barras_length texto); [lia|].
    by eapply list_elem_of_lookup_2. }
  destruct (fechas_barras texto) as [|f fs] eqn:Ef.
  - destruct (fechas_guiones texto) as [|g gs] eqn:Eg.
    + rewrite (H5 eq_refl eq_refl eq_refl). apply strftime_dmY_length.
    + rewrite (H4 eq_refl eq_refl g eq_refl), replace_char_length.
      rewrite (fechas_guiones_length texto); [lia|]. rewrite Eg. by left.
  - rewrite (H3 eq_refl ltac:(lia) f eq_refl).
    rewrite (fechas_barras_length texto); [lia|]. rewrite Ef. by left.
Qed.

(** C5 as stated fails: a text with a labelled date and four dates in all
    gives the labelled date, which is here the first occurrence, not the
    fourth. *)
Lemma fourth_date_not_always_returned :
  ¬ (∀ ahora texto,
       4 ≤ length (fechas_barras texto) →
       fechas_barras texto !! 3 = Some (GeneraTxt.extraer_fecha ahora texto)).
Proof.
  intros H. specialize (H ahora_ejemplo texto_cuatro_fechas).
  assert (Hl : 4 ≤ length (fechas_barras texto_cuatro_fechas))
    by (vm_compute; lia).
  specialize (H Hl). vm_compute in H. discriminate H.
Qed.

(** C5, amended.  A date labelled "Fecha de Emisión" is returned when there is
    one.  Otherwise: when the text holds four dd/mm/yyyy dates or more the
    fourth occurrence is returned as it stands; when it holds one to three,
    the first; when it holds none, the first dd-mm-yyyy date with its hyphens
    turned into slashes; and when it holds none of those either, the date of
    the clock.  The dates found are ten characters each. *)
Theorem issue_date_cascade (ahora : datetime) (texto : str) :
  (∀ m, fecha_etiquetada texto = Some m →
        GeneraTxt.extraer_fecha ahora texto = group_str 1 m
        ∧ length (group_str 1 m) = 10)
  ∧ (fecha_etiquetada texto = None → 4 ≤ length (fechas_barras texto) →
     fechas_barras texto !! 3 = Some (GeneraTxt.extraer_fecha ahora texto))
  ∧ (fecha_etiquetada texto = None → length (fechas_barras texto) < 4 →
     ∀ f, head (fechas_barras texto) = Some f →
          GeneraTxt.extraer_fecha ahora texto = f)
  ∧ (fecha_etiquetada texto = None → fechas_barras texto = [] →
     ∀ f, head (fechas_guiones texto) = Some f →
          GeneraTxt.extraer_fecha ahora texto = replace_char "-" "/" f)
  ∧ (fecha_etiquetada texto = None → fechas_barras texto = [] →
     fechas_guiones texto = [] →
     GeneraTxt.extraer_fecha ahora texto = strftime_dmY ahora)
  ∧ (∀ f, f ∈ fechas_barras texto ∨ f ∈ fechas_guiones texto → length f = 10)
  ∧ GeneraTxt.extraer_fecha ahora_ejemplo texto_cuatro_fechas
    = txt "01/01/2024"
  ∧ GeneraTxt.extraer_fecha ahora_ejemplo
      (txt "Vto 01/01/2024 02/02/2024 03/03/2024 04/04/2024 05/05/2024")
    = txt "04/04/2024".
Proof.
  destruct (extraer_fecha_cascade ahora texto) as (H1 & H2 & H3 & H4 & H5).
  split_and!; try done.
  - intros m Hm. split; [by apply H1|by eapply fecha_etiquetada_length].
  - intros f [Hf|Hf];
      eauto using fechas_barras_length, fechas_guiones_length.
Qed.

Lemma issue_date_cascade_witness :
  fecha_etiquetada
    (txt "Vto 01/01/2024 02/02/2024 03/03/2024 04/04/2024 05/05/2024") = None
  ∧ 4 ≤ length (fechas_barras
      (txt "Vto 01/01/2024 02/02/2024 03/03/2024 04/04/2024 05/05/2024"))
  ∧ fechas_barras
      (txt "Vto 01/01/2024 02/02/2024 03/03/2024 04/04/2024 05/05/2024") !! 3
    = Some (GeneraTxt.extraer_fecha ahora_ejemplo
      (txt "Vto 01/01/2024 02/02/2024 03/03/2024 04/04/2024 05/05/2024")).
Proof.
  assert (He : fecha_etiquetada
    (txt "Vto 01/01/2024 02/02/2024 03/03/2024 04/04/2024 05/05/2024") = None)
    by (by vm_compute).
  assert (Hl : 4 ≤ length (fechas_barras
      (txt "Vto 01/01/2024 02/02/2024 03/03/2024 04/04/2024 05/05/2024")))
    by (vm_compute; lia).
  split; [exact He|]. split; [exact Hl|].
  exact (proj1 (proj2 (issue_date_cascade ahora_ejemplo
    (txt "Vto 01/01/2024 02/02/2024 03/03/2024 04/04/2024 05/05/2024")))
    He Hl).
Defined.

(** ** Dates never missing (C10) and all-or-nothing extraction (C2) *)

Lemma periodo_actual_length ahora : 2 ≤ length (GeneraTxt.periodo_actual ahora).
Proof.
  unfold GeneraTxt.periodo_actual. rewrite length_app, zfill_length. lia.
Qed.

Lemma meses_value k v : GeneraTxt.meses !! k = Some v → length v = 2.
Proof.
  unfold GeneraTxt.meses. intros H%elem_of_list_to_map_2.
  rewrite !elem_of_cons, elem_of_nil in H.
  repeat (destruct H as [[= _ ->]|H]; [done|]). done.
Qed.

(** The cascade of [extraer_periodo], rule by rule. *)
Lemma extraer_periodo_cascade ahora texto :
  (∀ m, re_search GeneraTxt.patron_periodo texto re_I = Some m →
        GeneraTxt.extraer_periodo ahora texto
        = group_str 1 m ++ group_str 2 m)
  ∧ (re_search GeneraTxt.patron_periodo texto re_I = None →
     ∀ m mes, re_search GeneraTxt.patron_mes texto re_I = Some m →
       GeneraTxt.meses !! lower (group_str 1 m) = Some mes →
       GeneraTxt.extraer_periodo ahora texto = mes ++ group_str 2 m)
  ∧ (re_search GeneraTxt.patron_periodo texto re_I = None →
     (re_search GeneraTxt.patron_mes texto re_I = None
      ∨ ∃ m, re_search GeneraTxt.patron_mes texto re_I = Some m
             ∧ GeneraTxt.meses !! lower (group_str 1 m) = None) →
     GeneraTxt.extraer_periodo ahora texto = GeneraTxt.periodo_actual ahora).
Proof.
  unfold GeneraTxt.extraer_periodo. split_and!.
  - by intros m ->.
  - by intros -> m mes -> ->.
  - by intros -> [->|(m & -> & ->)].
Qed.

(** The period is never the empty text. *)
Lemma extraer_periodo_length ahora texto :
  2 ≤ length (GeneraTxt.extraer_periodo ahora texto).
Proof.
  destruct (extraer_periodo_cascade ahora texto) as (H1 & H2 & H3).
  destruct (re_search GeneraTxt.patron_periodo texto re_I) as [m|] eqn:Em.
  { rewrite (H1 m eq_refl), length_app. apply re_search_is_match in Em.
    rewrite (group_str_len re_I 0 2 GeneraTxt.patron_periodo) by done. lia. }
  destruct (re_search GeneraTxt.patron_mes texto re_I) as [m|] eqn:Emes.
  - destruct (GeneraTxt.meses !! lower (group_str 1 m)) as [mes|] eqn:Ek.
    + rewrite (H2 eq_refl m mes eq_refl Ek), length_app.
      rewrite (meses_value _ _ Ek). lia.
    + rewrite H3; [apply periodo_actual_length|done|eauto].
  - rewrite H3; [apply periodo_actual_length|done|eauto].
Qed.

Lemma length_nonempty (s : str) n : S n ≤ length s → s ≠ [].
Proof. destruct s; simpl; [lia|done]. Qed.

Lemma truthy_nonempty (s : str) : s ≠ [] → truthy (Some s) = true.
Proof. by destruct s. Qed.

(** The missing critical fields of a record: none for a record of a
    successful extraction, all five for the empty record. *)
Lemma faltantes_cases ahora doc :
  let info := GeneraTxt.extraer_info_pdf ahora doc in
  (info = ∅
   ∧ AnalizarDirectorio.faltantes info = AnalizarDirectorio.campos_criticos)
  ∨ (info ≠ ∅ ∧ AnalizarDirectorio.faltantes info = []
     ∧ Forall (λ k, ∃ v, info !! k = Some v ∧ v ≠ []) campos_identidad
     ∧ (∃ p, info !! "periodo"%string = Some p ∧ p ≠ [])
     ∧ completo info).
Proof.
  intros info.
  destruct (extraer_info_pdf_cases ahora doc)
    as [[Hr _]|(cuit & cs & cod & pv & nro & Hcs & _ & Hcod & _ & Hpv & Hnro & Hr)].
  { left. unfold info. by rewrite Hr. }
  right. unfold info. rewrite Hr.
  destruct (registro_de_lookup ahora (GeneraTxt.texto_completo doc)
              cuit cod pv nro) as (L1 & L2 & L3 & L4 & L5 & L6 & Hc & Hne).
  assert (Hcuit : cuit ≠ []).
  { assert (cuit ∈ GeneraTxt.extraer_cuits (GeneraTxt.texto_completo doc))
      as Hin by (rewrite Hcs; by left).
    rewrite extraer_cuits_candidatos, agregar_elem_of, elem_of_nil in Hin.
    destruct Hin as [[]|[_ Hl]]. by eapply length_nonempty; rewrite Hl. }
  pose proof (length_nonempty _ _ (extraer_fecha_length ahora
                (GeneraTxt.texto_completo doc))) as Hf.
  pose proof (length_nonempty _ _ (extraer_periodo_length ahora
                (GeneraTxt.texto_completo doc))) as Hp.
  split_and!; [done| | |by eauto|done].
  - unfold AnalizarDirectorio.faltantes, AnalizarDirectorio.campos_criticos.
    repeat (rewrite filter_cons_False;
      [|rewrite ?L1, ?L2, ?L3, ?L4, ?L5, truthy_nonempty by done; by intros []]).
    done.
  - unfold campos_identidad.
    repeat (apply Forall_cons; split; [by eauto|]). by apply Forall_nil.
Qed.

(** C10.  The issue date and the period are never absent and never empty:
    when nothing in the text gives them they are the date and the month and
    year of the clock.  So a record that is not empty has a date and a period
    that are not empty, and the report lists "fecha_cbte" among the missing
    critical fields only for the empty record, where it lists all five; it
    never lists it alone. *)
Theorem dates_never_missing (ahora : datetime) (texto : str) :
  GeneraTxt.extraer_fecha ahora texto ≠ []
  ∧ GeneraTxt.extraer_periodo ahora texto ≠ []
  ∧ (fecha_etiquetada texto = None → fechas_barras texto = [] →
     fechas_guiones texto = [] →
     GeneraTxt.extraer_fecha ahora texto = strftime_dmY ahora)
  ∧ (re_search GeneraTxt.patron_periodo texto re_I = None →
     re_search GeneraTxt.patron_mes texto re_I = None →
     GeneraTxt.extraer_periodo ahora texto = GeneraTxt.periodo_actual ahora)
  ∧ strftime_dmY ahora ≠ [] ∧ GeneraTxt.periodo_actual ahora ≠ []
  ∧ (∀ doc,
       let info := GeneraTxt.extraer_info_pdf ahora doc in
       (info ≠ ∅ →
        ∃ f p, info !! "fecha_cbte"%string = Some f ∧ f ≠ []
               ∧ info !! "periodo"%string = Some p ∧ p ≠ [])
       ∧ ("fecha_cbte"%string ∈ AnalizarDirectorio.faltantes info → info = ∅)
       ∧ AnalizarDirectorio.faltantes info ≠ ["fecha_cbte"%string]
       ∧ (AnalizarDirectorio.faltantes info = []
          ∨ info = ∅
            ∧ AnalizarDirectorio.faltantes info
              = AnalizarDirectorio.campos_criticos)).
Proof.
  split_and!.
  - eapply length_nonempty, extraer_fecha_length.
  - eapply length_nonempty, extraer_periodo_length.
  - apply extraer_fecha_cascade.
  - intros H1 H2. apply extraer_periodo_cascade; auto.
  - eapply length_nonempty, strftime_dmY_length.
  - eapply length_nonempty, periodo_actual_length.
  - intros doc info.
    pose proof (faltantes_cases ahora doc) as Hfalt.
    cbv zeta in Hfalt. fold info in Hfalt.
    destruct Hfalt as [[He Hf]|(Hne & Hf & Hid & (p & Hp & Hpne) & _)].
    + split_and!; [done|done|by rewrite Hf|by right].
    + split_and!.
      * intros _. unfold campos_identidad in Hid.
        rewrite !Forall_cons in Hid.
        destruct Hid as (_ & _ & _ & _ & (f & Hf' & Hfne) & _). eauto 6.
      * rewrite Hf. by intros ?%elem_of_nil.
      * by rewrite Hf.
      * by left.
Qed.

Lemma dates_never_missing_witness :
  GeneraTxt.extraer_info_pdf ahora_ejemplo (doc_ejemplo pagina_completa []) ≠ ∅
  ∧ ∃ f p,
      GeneraTxt.extraer_info_pdf ahora_ejemplo (doc_ejemplo pagina_completa [])
        !! "fecha_cbte"%string = Some f ∧ f ≠ []
      ∧ GeneraTxt.extraer_info_pdf ahora_ejemplo
          (doc_ejemplo pagina_completa []) !! "periodo"%string = Some p
      ∧ p ≠ [].
Proof.
  assert (Hne : GeneraTxt.extraer_info_pdf ahora_ejemplo
                  (doc_ejemplo pagina_completa []) ≠ ∅).
  { intros H. apply (f_equal (λ m : dict, m !! "pv"%string)) in H.
    vm_compute in H. discriminate H. }
  split; [exact Hne|].
  exact (proj1 (proj2 (proj2 (proj2 (proj2 (proj2 (proj2
           (dates_never_missing ahora_ejemplo []))))))
           (doc_ejemplo pagina_completa [])) Hne).
Defined.

(** C2.  The extraction of a document gives either the empty record or a
    record with every field.  It gives the empty record when no issuer tax id
    is found, when the code of the document cannot be determined, and when
    the sales point or the number is missing; the issue date is always
    determined.  A record that is not empty holds the issuer, the code, the
    sales point, the number and the issue date, none of them empty, with all
    the other fields, and the report calls it "OK"; for the empty record the
    report lists the five critical fields as missing. *)
Theorem extraction_all_or_nothing (ahora : datetime) (doc : documento) :
  let texto := GeneraTxt.texto_completo doc in
  let tl := GeneraTxt.tipo_letra_inferidos texto in
  let codigo := GeneraTxt.codigo_de tl.1 tl.2 in
  let pn := GeneraTxt.extraer_pv_nro texto in
  let info := GeneraTxt.extraer_info_pdf ahora doc in
  (GeneraTxt.extraer_cuits texto = [] → info = ∅)
  ∧ (truthy codigo = false → info = ∅)
  ∧ (truthy pn.1 = false → info = ∅)
  ∧ (truthy pn.2 = false → info = ∅)
  ∧ GeneraTxt.extraer_fecha ahora texto ≠ []
  ∧ (info ≠ ∅ →
     Forall (λ k, ∃ v, info !! k = Some v ∧ v ≠ []) campos_identidad
     ∧ completo info
     ∧ info !! "cuit_pre"%string = head (GeneraTxt.extraer_cuits texto)
     ∧ info !! "codigo_cbte"%string = codigo
     ∧ info !! "pv"%string = pn.1 ∧ info !! "nro"%string = pn.2
     ∧ info !! "fecha_cbte"%string = Some (GeneraTxt.extraer_fecha ahora texto)
     ∧ AnalizarDirectorio.estado info = txt "OK")
  ∧ (info = ∅ →
     AnalizarDirectorio.estado info
     = txt "Incompleto (faltan: cuit_pre, codigo_cbte, pv, nro, fecha_cbte)")
  ∧ (info = ∅ ∨ completo info)
  ∧ GeneraTxt.extraer_info_pdf ahora_ejemplo (doc_ejemplo pagina_sin_cuit [])
    = ∅
  ∧ (let info_ejemplo :=
        GeneraTxt.extraer_info_pdf ahora_ejemplo
          (doc_ejemplo pagina_completa []) in
      info_ejemplo !! "cuit_pre"%string = Some (txt "30123456789")
      ∧ info_ejemplo !! "codigo_cbte"%string = Some (txt "05")
      ∧ info_ejemplo !! "pv"%string = Some (txt "4")
      ∧ info_ejemplo !! "nro"%string = Some (txt "1234")
      ∧ info_ejemplo !! "fecha_cbte"%string = Some (txt "07/03/2025")
      ∧ info_ejemplo !! "importe"%string = Some (txt "150075")).
Proof.
  intros texto tl codigo pn info.
  pose proof (extraer_info_pdf_cases ahora doc) as Hcases.
  cbv zeta in Hcases. fold texto tl codigo pn info in Hcases.
  pose proof (faltantes_cases ahora doc) as Hfalt.
  cbv zeta in Hfalt. fold info in Hfalt.
  split_and!.
  - intros H.
    destruct Hcases as [[? _]|(? & ? & ? & ? & ? & Hc & _)]; [done|congruence].
  - intros H.
    destruct Hcases as [[? _]|(? & ? & cod & ? & ? & _ & Hc & Hne & _)];
      [done|]. rewrite Hc in H. by destruct cod.
  - intros H.
    destruct Hcases as [[? _]|(? & ? & ? & pv & ? & _ & _ & _ & Hp & Hne & _)];
      [done|]. rewrite Hp in H. by destruct pv.
  - intros H.
    destruct Hcases as [[? _]|(? & ? & ? & ? & nro & _ & _ & _ & Hp & _ & Hne & _)];
      [done|]. rewrite Hp in H. by destruct nro.
  - eapply length_nonempty, extraer_fecha_length.
  - intros Hinfo.
    destruct Hfalt as [[? _]|(_ & Hf & Hid & _ & Hc)]; [done|].
    destruct Hcases
      as [[? _]|(cuit & cs & cod & pv & nro & Hcs & Hcod & _ & Hpn & _ & _ & Hr)];
      [done|].
    destruct (registro_de_lookup ahora texto cuit cod pv nro)
      as (L1 & L2 & L3 & L4 & L5 & _).
    rewrite Hr, Hcs, Hcod, Hpn. split_and!; try done; try by rewrite <-Hr.
    unfold AnalizarDirectorio.estado. by rewrite <-Hr, Hf.
  - by intros ->.
  - destruct Hfalt as [[? _]|(_ & _ & _ & _ & Hc)]; auto.
  - by vm_compute.
  - cbv zeta. split_and!; by vm_compute.
Qed.

Lemma extraction_all_or_nothing_witness :
  GeneraTxt.extraer_cuits
    (GeneraTxt.texto_completo (doc_ejemplo pagina_sin_cuit [])) = []
  ∧ GeneraTxt.extraer_info_pdf ahora_ejemplo (doc_ejemplo pagina_sin_cuit [])
    = ∅.
Proof.
  assert (H : GeneraTxt.extraer_cuits
    (GeneraTxt.texto_completo (doc_ejemplo pagina_sin_cuit [])) = [])
    by (by vm_compute).
  split; [exact H|].
  exact (proj1 (extraction_all_or_nothing ahora_ejemplo
                  (doc_ejemplo pagina_sin_cuit [])) H).
Defined.

(** ** The letter of the document (C8) *)















(** The rule of the lone letter: the loop reads group 1 of its match, which
    is the line break, so a letter alone on its line is not taken, while the
    renaming tool, reading group 2, takes it. *)
Lemma letra_suelta_ignorada :
  GeneraTxt.extraer_tipo_letra pagina_letra_suelta
  = (Some (txt "RECIBO"), None)
  ∧ RenombrarFacturas.extraer_tipo_y_letra pagina_letra_suelta
    = (Some (txt "RECIBO"), Some (txt "C")).
Proof. by vm_compute. Qed.


(** ** Completeness of the matcher

    The matcher finds a match wherever the pattern has a word: it explores
    every way of reading the pattern, so a search fails only when no position
    of the text starts a word. *)

Lemma steps_any_caps fl r p w s cs cs' :
  steps fl r p w s cs cs' → ∀ cs0, ∃ cs0', steps fl r p w s cs0 cs0'.
Proof.
  induction 1; intros cs0.
  - eexists; constructor.
  - eexists; by constructor.
  - destruct (IHsteps1 cs0) as [c1 H1]. destruct (IHsteps2 c1) as [c2 H2].
    eexists; by econstructor.
  - destruct (IHsteps cs0) as [c1 H1]. eexists; by apply st_alt_l.
  - destruct (IHsteps cs0) as [c1 H1]. eexists; by apply st_alt_r.
  - eexists; constructor.
  - destruct (IHsteps1 cs0) as [c1 H1]. destruct (IHsteps2 c1) as [c2 H2].
    eexists; by eapply st_star_S.
  - destruct (IHsteps cs0) as [c1 H1]. eexists; by constructor.
  - eexists; by constructor.
  - eexists; constructor.
  - eexists; by constructor.
Qed.

Lemma accepts_eps fl p s : accepts fl Eps p [] s.
Proof. exists [], []. constructor. Qed.

Lemma accepts_sym fl c x p s : in_cset fl c x = true → accepts fl (Sym c) p [x] s.
Proof. intros. exists [], []. by constructor. Qed.

Lemma accepts_seq fl r1 r2 p w1 w2 s :
  accepts fl r1 p w1 (w2 ++ s) → accepts fl r2 (prev_after p w1) w2 s →
  accepts fl (Seq r1 r2) p (w1 ++ w2) s.
Proof.
  intros (c & c1 & H1) (c' & c2 & H2).
  destruct (steps_any_caps _ _ _ _ _ _ _ H2 c1) as [c3 H3].
  exists c, c3. by econstructor.
Qed.

Lemma accepts_seq_inv fl r1 r2 p w s :
  accepts fl (Seq r1 r2) p w s →
  ∃ w1 w2, w = w1 ++ w2 ∧ accepts fl r1 p w1 (w2 ++ s)
           ∧ accepts fl r2 (prev_after p w1) w2 s.
Proof.
  intros (c & c' & H). inversion H; subst.
  eexists _, _. split; [done|]. split; eexists _, _; eassumption.
Qed.

Lemma accepts_alt_l fl r1 r2 p w s :
  accepts fl r1 p w s → accepts fl (Alt r1 r2) p w s.
Proof. intros (c & c' & H). exists c, c'. by apply st_alt_l. Qed.

Lemma accepts_alt_r fl r1 r2 p w s :
  accepts fl r2 p w s → accepts fl (Alt r1 r2) p w s.
Proof. intros (c & c' & H). exists c, c'. by apply st_alt_r. Qed.

Lemma accepts_alt_inv fl r1 r2 p w s :
  accepts fl (Alt r1 r2) p w s → accepts fl r1 p w s ∨ accepts fl r2 p w s.
Proof.
  intros (c & c' & H). inversion H; subst; [left|right]; eexists _, _; eassumption.
Qed.

Lemma accepts_star_0 fl g r p s : accepts fl (Star g r) p [] s.
Proof. exists [], []. constructor. Qed.

Lemma accepts_star_S fl g r p w1 w2 s :
  accepts fl r p w1 (w2 ++ s) → accepts fl (Star g r) (prev_after p w1) w2 s →
  accepts fl (Star g r) p (w1 ++ w2) s.
Proof.
  intros (c & c1 & H1) (c' & c2 & H2).
  destruct (steps_any_caps _ _ _ _ _ _ _ H2 c1) as [c3 H3].
  exists c, c3. by eapply st_star_S.
Qed.

Lemma accepts_grp fl n r p w s : accepts fl r p w s ↔ accepts fl (Grp n r) p w s.
Proof.
  split.
  - intros (c & c' & H). eexists _, _. constructor. eassumption.
  - intros (c & c' & H). inversion H; subst. eexists _, _; eassumption.
Qed.

Lemma accepts_bnd fl p s :
  xorb (is_word_opt p) (is_word_opt (head s)) = true → accepts fl Bnd p [] s.
Proof. intros. exists [], []. by constructor. Qed.

Lemma accepts_eol fl p s : s = [] ∨ s = [newline] → accepts fl Eol p [] s.
Proof. intros. exists [], []. by constructor. Qed.

Lemma accepts_bol fl s : accepts fl Bol None [] s.
Proof. exists [], []. constructor. Qed.

(** The matcher succeeds when the pattern has a word here after which the
    continuation succeeds, whatever the groups. *)
Lemma rmatch_complete {A} fl r p w s cs cs' :
  steps fl r p w s cs cs' →
  ∀ (k : @cont A) cs0,
    (∀ cs'', is_Some (k (prev_after p w) s cs'')) →
    is_Some (rmatch fl r p (w ++ s) cs0 k).
Proof.
  induction 1; intros k cs0 Hk; cbn [rmatch app].
  - apply Hk.
  - rewrite H. apply Hk.
  - rewrite <- app_assoc. apply IHsteps1. intros c1.
    apply IHsteps2. intros c2. rewrite prev_after_app. apply Hk.
  - destruct (IHsteps k cs0 Hk) as [a ->]. eauto.
  - destruct (rmatch fl r1 p _ cs0 k); [eauto|]. by apply IHsteps.
  - cbn [star_loop]. destruct g.
    + destruct (rmatch fl r p s cs0 _); [eauto|]. apply Hk.
    + destruct (Hk cs0) as [a Ha]. cbn in Ha. rewrite Ha. eauto.
  - destruct w1 as [|x w1].
    { cbn [app] in *. by apply IHsteps2. }
    specialize (IHsteps2 k).
    assert (Hotra : ∀ c1,
      is_Some (star_loop (rmatch fl r) g k (length (((x :: w1) ++ w2) ++ s))
                 (prev_after p (x :: w1)) (w2 ++ s) c1)).
    { intros c1. cbn [rmatch] in IHsteps2.
      rewrite (star_loop_fuel fl r g k _ (S (length (w2 ++ s)))).
      - apply IHsteps2. intros c2. rewrite prev_after_app. apply Hk.
      - rewrite !length_app. cbn. lia.
      - lia. }
    cbn [star_loop].
    set (otra := λ p' s' cs', if (length s' <? _)%nat then _ else None).
    assert (Hb : is_Some (rmatch fl r p (((x :: w1) ++ w2) ++ s) cs0 otra)).
    { rewrite <- app_assoc. apply IHsteps1. intros c1. unfold otra.
      match goal with |- context [(?a <? ?b)%nat] =>
        destruct (Nat.ltb_spec a b) as [Hlt|Hge] end.
      - apply Hotra.
      - rewrite !length_app in Hge. cbn in Hge. lia. }
    destruct g.
    + destruct Hb as [a ->]. eauto.
    + destruct (k p _ cs0); [eauto|]. apply Hb.
  - apply IHsteps. intros c1. apply Hk.
  - rewrite H. apply Hk.
  - apply Hk.
  - destruct H as [-> | ->]; cbn; [apply Hk|].
    rewrite bool_decide_true by done. apply Hk.
Qed.

Lemma match_at_complete fl r p w s :
  accepts fl r p w s → is_Some (match_at fl r p (w ++ s)).
Proof.
  intros (c & c' & H). unfold match_at.
  apply (rmatch_complete fl r p w s c c' H). intros; eauto.
Qed.

Lemma search_from_complete fl r p pre w s :
  accepts fl r (prev_after p pre) w s →
  is_Some (search_from fl r p (pre ++ w ++ s)).
Proof.
  revert p. induction pre as [|c pre IH]; intros p H.
  - cbn [app]. destruct (w ++ s) eqn:E; cbn [search_from]; rewrite <- ?E;
      destruct (match_at_complete fl r p w s H) as [m ->]; eauto.
  - cbn [app search_from]. destruct (match_at fl r p _); [eauto|].
    apply IH. replace (prev_after (Some c) pre) with (prev_after p (c :: pre));
      [done|].
    unfold prev_after. rewrite last_cons. by destruct (last pre).
Qed.

Lemma re_search_complete fl r pre w s :
  accepts fl r (prev_after None pre) w s →
  is_Some (re_search r (pre ++ w ++ s) fl).
Proof. apply search_from_complete. Qed.

(** Where a search finds its match. *)
Lemma search_from_at fl r p s m :
  search_from fl r p s = Some m →
  ∃ pre s', s = pre ++ m_whole m ++ s'
            ∧ steps fl r (prev_after p pre) (m_whole m) s' [] (m_caps m).
Proof.
  revert p. induction s as [|c s IH]; intros p; cbn [search_from].
  - destruct (match_at fl r p []) eqn:E; [|done]. intros [= ->].
    apply match_at_sound in E as (w & s' & Hs & Hw & Hst).
    exists [], s'. cbn [app]. rewrite Hw. done.
  - destruct (match_at fl r p (c :: s)) eqn:E.
    + intros [= ->]. apply match_at_sound in E as (w & s' & Hs & Hw & Hst).
      exists [], s'. cbn [app]. rewrite Hw. done.
    + intros H. apply IH in H as (pre & s' & -> & Hst).
      exists (c :: pre), s'. split; [done|].
      replace (prev_after p (c :: pre)) with (prev_after (Some c) pre); [done|].
      unfold prev_after. rewrite last_cons. by destruct (last pre).
Qed.

Lemma re_search_at fl r s m :
  re_search r s fl = Some m →
  ∃ pre s', s = pre ++ m_whole m ++ s'
            ∧ accepts fl r (prev_after None pre) (m_whole m) s'.
Proof.
  intros (pre & s' & ? & ?)%search_from_at. exists pre, s'. split; [done|].
  eexists _, _; eassumption.
Qed.

(** A search for a pattern fails when the search for a pattern that includes
    it fails. *)
Lemma re_search_incl fl r r' texto :
  incl_re fl r r' →
  re_search r' texto fl = None → re_search r texto fl = None.
Proof.
  intros Hi Hn. destruct (re_search r texto fl) as [m|] eqn:E; [|done].
  apply re_search_at in E as (pre & s' & -> & Ha).
  apply Hi in Ha as (w1 & w2 & Hw & Ha). rewrite Hw in Hn.
  rewrite prev_after_app in Ha.
  pose proof (re_search_complete fl r' (pre ++ w1) w2 s' Ha) as [m' Hm'].
  rewrite <- !app_assoc in Hm'. rewrite <- !app_assoc in Hn. congruence.
Qed.

Lemma sub_incl fl r r' : sub_re fl r r' → incl_re fl r r'.
Proof. intros H p w s Ha. exists [], w. split; [done|]. by apply H. Qed.

Lemma sub_refl fl r : sub_re fl r r.
Proof. by intros p w s. Qed.

Lemma sub_seq fl r1 r2 r1' r2' :
  sub_re fl r1 r1' → sub_re fl r2 r2' → sub_re fl (Seq r1 r2) (Seq r1' r2').
Proof.
  intros H1 H2 p w s (w1 & w2 & -> & Ha1 & Ha2)%accepts_seq_inv.
  apply accepts_seq; [by apply H1 | by apply H2].
Qed.

(** An optional repetition can be read as the empty word. *)
Lemma sub_skip_star fl g r0 r r' :
  sub_re fl r r' → sub_re fl r (Seq (Star g r0) r').
Proof.
  intros H p w s Ha. change w with ([] ++ w).
  apply accepts_seq; [apply accepts_star_0 | by apply H].
Qed.

(** ** The cleaners of numbers: [int] and [str] *)





Lemma str_N_digits n : digit_string (str_N n).
Proof. apply digits_of_uint_digits. Qed.







Lemma strip_leading_zeros_numeral s :
  digit_string s → numeral (strip_leading_zeros s).
Proof.
  intros Hs. split; [by apply strip_leading_zeros_digits|].
  unfold strip_leading_zeros.
  assert (Hh : head (drop_zeros s) ≠ Some "0"%char).
  { clear Hs. induction s as [|c s IH]; simpl; [done|].
    case_bool_decide; [done|]. simpl. congruence. }
  destruct (drop_zeros s) as [|c s'] eqn:E.
  - split; [done|]. by left.
  - split; [done|]. by right.
Qed.

(** A numeral is left as it is by both cleaners. *)
Lemma limpiar_numero_numeral s :
  numeral s →
  GeneraTxt.limpiar_numero s = s ∧ RenombrarFacturas.limpiar_numero s = s.
Proof.
  intros (Hd & Hne & Hz).
  destruct (limpiar_numero_digits s Hd Hne) as [-> ->].
  assert (strip_leading_zeros s = s) as ->; [|done].
  unfold strip_leading_zeros. destruct Hz as [->|Hz]; [done|].
  destruct s as [|c s']; [done|]. simpl in *.
  rewrite bool_decide_false; [done|]. congruence.
Qed.


(** ** Sales point and number, authorisation code, amount *)



Lemma limpiar_numero_r_numeral g :
  digit_string g → g ≠ [] →
  digit_string (RenombrarFacturas.limpiar_numero g)
  ∧ RenombrarFacturas.limpiar_numero g ≠ []
  ∧ numeral (RenombrarFacturas.limpiar_numero g).
Proof.
  intros Hd Hne. destruct (limpiar_numero_digits g Hd Hne) as [_ ->].
  pose proof (strip_leading_zeros_numeral g Hd) as Hn.
  destruct Hn as (H1 & H2 & H3). done.
Qed.





Lemma buscar_pv_nro_dead texto l p q :
  sub_re re_I (re q) (re p) →
  GeneraTxt.buscar_pv_nro texto (l ++ [p; q])
  = GeneraTxt.buscar_pv_nro texto (l ++ [p]).
Proof.
  intros Hsub. induction l as [|x l IH]; cbn [app GeneraTxt.buscar_pv_nro].
  - destruct (re_search (re p) texto re_I) eqn:E; [done|].
    by rewrite (re_search_incl re_I (re q) (re p) texto (sub_incl _ _ _ Hsub) E).
  - destruct (re_search (re x) texto re_I); [done|]. apply IH.
Qed.

(** The form without white space is a case of the form with white space. *)
Lemma sin_espacios_sub fl (a b g3 g4 : regex) :
  sub_re fl
    (seqs [a; b; ch "-"; GeneraTxt.ceros; g3; ch "-"; GeneraTxt.ceros; g4])
    (seqs [a; b; Star true sp; ch "-"; Star true sp; GeneraTxt.ceros; g3;
           Star true sp; ch "-"; Star true sp; GeneraTxt.ceros; g4]).
Proof.
  cbn [seqs].
  repeat first [ apply sub_refl
               | apply sub_seq; [apply sub_refl|]
               | apply sub_skip_star ].
Qed.

(** X3.  The last pattern of [extraer_pv_nro] in [genera_txt.py], the form
    "B-0003-00002475" without white space, never decides: wherever it matches,
    the pattern before it (the same form with optional white space) matches
    too and is tried first.  The result is the one of the first five
    patterns. *)
Theorem extraer_pv_nro_last_pattern_dead (texto : str) :
  GeneraTxt.extraer_pv_nro texto
  = GeneraTxt.buscar_pv_nro texto (take 5 GeneraTxt.patrones_pv_nro)
  ∧ (∀ p5 p6,
       GeneraTxt.patrones_pv_nro !! 4 = Some p5 →
       GeneraTxt.patrones_pv_nro !! 5 = Some p6 →
       re_search (re p5) texto re_I = None →
       re_search (re p6) texto re_I = None).
Proof.
  split.
  - unfold GeneraTxt.extraer_pv_nro, GeneraTxt.patrones_pv_nro.
    match goal with |- GeneraTxt.buscar_pv_nro _ [?a; ?b; ?c; ?e; ?p; ?q] = _ =>
      change [a; b; c; e; p; q] with ([a; b; c; e] ++ [p; q]);
      rewrite (buscar_pv_nro_dead texto [a; b; c; e] p q)
    end; [done|].
    apply sin_espacios_sub.
  - intros p5 p6 [= <-] [= <-] H.
    apply (re_search_incl re_I _ _ texto (sub_incl _ _ _ (sin_espacios_sub _ _ _ _ _)) H).
Qed.





(** *** Amount *)

Lemma sin_separadores_digits g :
  Forall (λ x, es_monto x = true) g → digit_string (GeneraTxt.sin_separadores g).
Proof.
  intros H. unfold GeneraTxt.sin_separadores, remove_char, digit_string.
  apply Forall_forall. intros x Hx.
  apply list_elem_of_filter in Hx as [Hc Hx].
  apply list_elem_of_filter in Hx as [Hp Hx].
  rewrite Forall_forall in H. specialize (H x Hx). unfold es_monto in H.
  apply orb_prop in H as [H|H].
  - apply orb_prop in H as [H|H]; [done|]. by apply bool_decide_eq_true in H.
  - by apply bool_decide_eq_true in H.
Qed.

Lemma grupo_monto_sound fl r m :
  grupo_monto fl r = true → is_match fl r m →
  digit_string (GeneraTxt.sin_separadores (group_str 1 m)).
Proof.
  unfold grupo_monto. intros [Hs Hw]%andb_prop Hm.
  apply sin_separadores_digits.
  apply (group_str_within fl es_monto 0 r m Hs Hw Hm).
Qed.

Lemma buscar_importe_digits texto ps importe :
  forallb (grupo_monto re_I) ps = true →
  GeneraTxt.buscar_importe texto ps = Some importe → digit_string importe.
Proof.
  induction ps as [|p ps IH]; cbn [forallb GeneraTxt.buscar_importe]; [done|].
  intros [Hp Hps]%andb_prop.
  destruct (re_search p texto re_I) as [m|] eqn:E; [|by apply IH].
  intros [= <-]. apply re_search_is_match in E.
  by apply (grupo_monto_sound re_I p m).
Qed.

Lemma extraer_importe_digits texto importe :
  GeneraTxt.extraer_importe texto = Some importe → digit_string importe.
Proof.
  unfold GeneraTxt.extraer_importe.
  destruct (GeneraTxt.buscar_importe texto GeneraTxt.patrones_importe)
    as [i|] eqn:E.
  - intros [= <-].
    apply (buscar_importe_digits texto GeneraTxt.patrones_importe i);
      [by vm_compute|done].
  - intros H. apply fmap_Some in H as (g & Hg & ->).
    apply last_Some_elem_of in Hg.
    apply list_elem_of_fmap in Hg as (m & -> & Hm).
    apply re_finditer_is_match in Hm.
    apply (grupo_monto_sound re_none GeneraTxt.patron_importe_suelto m);
      [by vm_compute|done].
Qed.

Lemma o_bien_importe_digits texto :
  digit_string (GeneraTxt.o_bien (GeneraTxt.extraer_importe texto) (txt "0"))
  ∧ GeneraTxt.o_bien (GeneraTxt.extraer_importe texto) (txt "0") ≠ [].
Proof.
  destruct (GeneraTxt.extraer_importe texto) as [[|c i]|] eqn:E; cbn.
  - split; [by repeat constructor|done].
  - split; [by apply (extraer_importe_digits texto)|done].
  - split; [by repeat constructor|done].
Qed.

(** X5.  The amount that [extraer_importe] gives holds digits only: the
    points and the commas of the figure are removed, whatever their role, so
    "1.500,75" becomes "150075".  A label followed by separators alone gives
    the empty text, which [extraer_info_pdf] replaces by "0": the amount of
    a record is never empty.  The label "TOTAL" is looked for anywhere, also
    inside "Subtotal". *)
Theorem extraer_importe_only_digits (texto : str) :
  (∀ importe, GeneraTxt.extraer_importe texto = Some importe →
              digit_string importe)
  ∧ digit_string (GeneraTxt.o_bien (GeneraTxt.extraer_importe texto) (txt "0"))
  ∧ GeneraTxt.o_bien (GeneraTxt.extraer_importe texto) (txt "0") ≠ []
  ∧ GeneraTxt.extraer_importe (txt "Importe Total: $ 1.500,75")
    = Some (txt "150075")
  ∧ GeneraTxt.extraer_importe (txt "Total: ,") = Some []
  ∧ GeneraTxt.extraer_importe (txt "Subtotal: 100,00 Total: 121,00")
    = Some (txt "10000")
  ∧ GeneraTxt.extraer_importe (txt "son 12.345,60 y 1.000,00")
    = Some (txt "00000")
  ∧ GeneraTxt.extraer_importe (txt "sin cifras") = None.
Proof.
  split; [apply extraer_importe_digits|].
  split; [apply o_bien_importe_digits|].
  split; [apply o_bien_importe_digits|].
  split_and!; by vm_compute.
Qed.

Lemma accepts_sym_inv fl c p w s :
  accepts fl (Sym c) p w s → ∃ x, w = [x] ∧ in_cset fl c x = true.
Proof. intros (cs & cs' & H). inversion H; subst. eauto. Qed.

(** Under [re.I] a letter is read whatever its case. *)
Lemma sub_ch_I c c' :
  lower_char c = lower_char c' → sub_re re_I (ch c) (ch c').
Proof.
  intros Hc p w s (x & -> & Hx)%accepts_sym_inv. apply accepts_sym.
  cbn in *. by rewrite <- Hc.
Qed.

Lemma sub_word_I s s' :
  lower s = lower s' → sub_re re_I (Word s) (Word s').
Proof.
  revert s'. induction s as [|c s IH]; intros [|c' s'] H; try done.
  - apply sub_refl.
  - cbn in H. injection H as Hc Hs. cbn [Word].
    apply sub_seq; [by apply sub_ch_I|by apply IH].
Qed.

Lemma monto_sub e e' :
  lower (txt e) = lower (txt e') →
  sub_re re_I (GeneraTxt.monto e) (GeneraTxt.monto e').
Proof.
  intros H. unfold GeneraTxt.monto. cbn [seqs].
  apply sub_seq; [by apply sub_word_I|apply sub_refl].
Qed.

Lemma buscar_importe_skip texto p l :
  re_search p texto re_I = None →
  ∀ q l', sub_re re_I q p →
    GeneraTxt.buscar_importe texto (l ++ q :: l')
    = GeneraTxt.buscar_importe texto (l ++ l').
Proof.
  intros Hp q l' Hsub.
  pose proof (re_search_incl re_I q p texto (sub_incl _ _ _ Hsub) Hp) as Hq.
  induction l as [|x l IH]; cbn [app GeneraTxt.buscar_importe].
  - by rewrite Hq.
  - destruct (re_search x texto re_I); [done|]. apply IH.
Qed.

Lemma buscar_importe_dead texto l1 p l2 q l3 :
  sub_re re_I q p →
  GeneraTxt.buscar_importe texto (l1 ++ p :: l2 ++ q :: l3)
  = GeneraTxt.buscar_importe texto (l1 ++ p :: l2 ++ l3).
Proof.
  intros Hsub. induction l1 as [|x l1 IH]; cbn [app GeneraTxt.buscar_importe].
  - destruct (re_search p texto re_I) eqn:E; [done|].
    by apply (buscar_importe_skip texto p l2 E).
  - destruct (re_search x texto re_I); [done|]. apply IH.
Qed.

(** X6.  Of the four labelled patterns of [extraer_importe] only the first
    two ever decide.  All are searched with [re.I], so "Total" is the same
    pattern as "TOTAL" and "IMPORTE TOTAL" the same as "Importe Total": when
    the third or the fourth is reached, the text has already been searched
    for it without success. *)
Theorem extraer_importe_dead_patterns (texto : str) :
  GeneraTxt.buscar_importe texto GeneraTxt.patrones_importe
  = GeneraTxt.buscar_importe texto (take 2 GeneraTxt.patrones_importe)
  ∧ (re_search (GeneraTxt.monto "TOTAL") texto re_I = None →
     re_search (GeneraTxt.monto "Total") texto re_I = None)
  ∧ (re_search (GeneraTxt.monto "Importe Total") texto re_I = None →
     re_search (GeneraTxt.monto "IMPORTE TOTAL") texto re_I = None)
  ∧ (re_search (GeneraTxt.monto "TOTAL") texto re_I = None →
     re_search (GeneraTxt.monto "Importe Total") texto re_I = None)
  ∧ GeneraTxt.extraer_importe texto =
    match GeneraTxt.buscar_importe texto (take 2 GeneraTxt.patrones_importe) with
    | Some importe => Some importe
    | None =>
        GeneraTxt.sin_separadores
        <$> last (group_str 1
                  <$> re_finditer GeneraTxt.patron_importe_suelto texto re_none)
    end.
Proof.
  assert (H3 : sub_re re_I (GeneraTxt.monto "Total") (GeneraTxt.monto "TOTAL"))
    by (by apply monto_sub).
  assert (H4 : sub_re re_I (GeneraTxt.monto "IMPORTE TOTAL")
                 (GeneraTxt.monto "Importe Total")) by (by apply monto_sub).
  assert (Heq : GeneraTxt.buscar_importe texto GeneraTxt.patrones_importe
    = GeneraTxt.buscar_importe texto (take 2 GeneraTxt.patrones_importe)).
  { etrans.
    - exact (buscar_importe_dead texto [GeneraTxt.monto "Importe Total"]
               (GeneraTxt.monto "TOTAL") [] (GeneraTxt.monto "Total")
               [GeneraTxt.monto "IMPORTE TOTAL"] H3).
    - exact (buscar_importe_dead texto [] (GeneraTxt.monto "Importe Total")
               [GeneraTxt.monto "TOTAL"] (GeneraTxt.monto "IMPORTE TOTAL") []
               H4). }
  split; [exact Heq|].
  split; [apply re_search_incl, sub_incl, H3|].
  split; [apply re_search_incl, sub_incl, H4|].
  split.
  - apply re_search_incl. intros p w s Ha.
    unfold GeneraTxt.monto in *. cbn [seqs] in *.
    apply accepts_seq_inv in Ha as (w1 & w2 & -> & Ha1 & Ha2).
    change (Lit "Importe Total") with (Word (txt "Importe " ++ txt "Total")) in Ha1.
    assert (Hsplit : ∀ a b p w s,
      accepts re_I (Word (a ++ b)) p w s →
      ∃ u v, w = u ++ v ∧ accepts re_I (Word b) (prev_after p u) v s).
    { clear. induction a as [|c a IH]; intros b p w s Ha.
      - exists [], w. done.
      - cbn [app Word] in Ha.
        apply accepts_seq_inv in Ha as (u1 & u2 & -> & Hu1 & Hu2).
        apply IH in Hu2 as (u & v & -> & Hv).
        exists (u1 ++ u), v. split; [by rewrite app_assoc|].
        by rewrite <- prev_after_app. }
    apply Hsplit in Ha1 as (u & v & -> & Hv).
    exists u, (v ++ w2). split; [by rewrite app_assoc|].
    apply accepts_seq; [|by rewrite prev_after_app].
    revert Hv. apply sub_word_I. done.
  - unfold GeneraTxt.extraer_importe. by rewrite Heq.
Qed.

(** ** The form of the dates *)

Lemma steps_shape fl r p w s cs cs' :
  steps fl r p w s cs cs' →
  ∀ l, shape r = Some l → Forall2 (λ c x, in_cset fl c x = true) l w.
Proof.
  induction 1; intros l Hl; cbn [shape] in Hl; try discriminate Hl.
  - injection Hl as <-. constructor.
  - injection Hl as <-. by repeat constructor.
  - destruct (shape r1) as [a|]; [|done]. destruct (shape r2) as [b|]; [|done].
    injection Hl as <-. apply Forall2_app; eauto.
  - eauto.
  - injection Hl as <-. constructor.
  - injection Hl as <-. constructor.
  - injection Hl as <-. constructor.
Qed.

Lemma word_of_shape fl r w l :
  word_of fl r w → shape r = Some l →
  Forall2 (λ c x, in_cset fl c x = true) l w.
Proof. intros (p & s & cs & cs' & H) Hl. by eapply steps_shape. Qed.

Lemma lower_char_barra x : lower_char x = "/"%char → x = "/"%char.
Proof.
  destruct x as [[] [] [] [] [] [] [] []]; vm_compute; congruence.
Qed.

Lemma lower_char_guion x : lower_char x = "-"%char → x = "-"%char.
Proof.
  destruct x as [[] [] [] [] [] [] [] []]; vm_compute; congruence.
Qed.

Lemma in_barra fl x :
  in_cset fl (One (CChar "/")) x = true → x = "/"%char.
Proof.
  cbn. destruct (ignorecase fl); intros H%bool_decide_eq_true; [|done].
  by apply lower_char_barra.
Qed.

Lemma in_guion fl x :
  in_cset fl (One (CChar "-")) x = true → x = "-"%char.
Proof.
  cbn. destruct (ignorecase fl); intros H%bool_decide_eq_true; [|done].
  by apply lower_char_guion.
Qed.

Ltac forall2_chars H :=
  repeat match type of H with
         | Forall2 _ (_ :: _) _ =>
             let x := fresh "x" in let Hx := fresh "Hx" in
             apply Forall2_cons_inv_l in H as (x & ? & Hx & H & ->)
         | Forall2 _ [] _ => apply Forall2_nil_inv_l in H as ->
         end.

Lemma fecha_barras_es_fecha fl w :
  word_of fl GeneraTxt.fecha_barras w → es_fecha w = true.
Proof.
  intros H.
  pose proof (word_of_shape fl GeneraTxt.fecha_barras w
                (default [] (shape GeneraTxt.fecha_barras)) H eq_refl) as H2.
  clear H. cbn in H2. forall2_chars H2.
  repeat match goal with
         | H : in_cset _ (One (CChar "/")) _ = true |- _ =>
             apply in_barra in H; subst
         | H : in_cset _ (One CDigit) _ = true |- _ => cbn in H
         end.
  cbn.
  repeat match goal with H : is_digit _ = true |- _ => rewrite H; clear H end.
  by vm_compute.
Qed.

Lemma fecha_guiones_es_fecha fl w :
  word_of fl GeneraTxt.fecha_guiones w →
  es_fecha (replace_char "-" "/" w) = true.
Proof.
  intros H.
  pose proof (word_of_shape fl GeneraTxt.fecha_guiones w
                (default [] (shape GeneraTxt.fecha_guiones)) H eq_refl) as H2.
  clear H. cbn in H2. forall2_chars H2.
  repeat match goal with
         | H : in_cset _ (One (CChar "-")) _ = true |- _ =>
             apply in_guion in H; subst
         | H : in_cset _ (One CDigit) _ = true |- _ => cbn in H
         end.
  assert (Hd : ∀ c, is_digit c = true →
                    (if bool_decide (c = "-"%char) then "/"%char else c) = c).
  { intros c Hc. case_bool_decide; [|done]. by subst. }
  cbn.
  repeat match goal with
         | H : is_digit ?c = true
           |- context [if bool_decide (?c = "-"%char) then _ else _] =>
             rewrite (Hd c H)
         end.
  repeat match goal with H : is_digit _ = true |- _ => rewrite H; clear H end.
  by vm_compute.
Qed.

Lemma dos_digitos n :
  n < 100 →
  ∃ a b, zfill 2 (str_nat n) = [a; b] ∧ is_digit a = true ∧ is_digit b = true.
Proof.
  intros Hn. assert (Hc : dos_digitos_hasta 100 = true) by (by vm_compute).
  unfold dos_digitos_hasta in Hc. rewrite forallb_forall in Hc.
  specialize (Hc n). rewrite in_seq in Hc. specialize (Hc ltac:(lia)).
  destruct (zfill 2 (str_nat n)) as [|a [|b [|? ?]]]; try done.
  apply andb_prop in Hc as [? ?]. eauto.
Qed.

Lemma str_nat_digits n : digit_string (str_nat n).
Proof. apply str_N_digits. Qed.

Lemma cuatro_digitos n :
  length (str_nat n) = 4 →
  ∃ a b c e, str_nat n = [a; b; c; e] ∧ is_digit a = true ∧ is_digit b = true
             ∧ is_digit c = true ∧ is_digit e = true.
Proof.
  intros Hl. pose proof (str_nat_digits n) as Hd.
  destruct (str_nat n) as [|a [|b [|c [|e [|? ?]]]]]; try done.
  inversion Hd as [|? ? Ha Hd1]; subst. inversion Hd1 as [|? ? Hb Hd2]; subst.
  inversion Hd2 as [|? ? Hc Hd3]; subst. inversion Hd3 as [|? ? He _]; subst.
  eauto 10.
Qed.

Lemma zfill_digit_string k s : digit_string s → digit_string (zfill k s).
Proof.
  intros H. rewrite (zfill_digits k s H). apply Forall_app. split; [|done].
  apply Forall_forall. by intros x [-> _]%elem_of_replicate.
Qed.

Lemma digit_string_barra s :
  digit_string s → Forall (λ c, digito_o_barra c = true) s.
Proof.
  intros H. eapply Forall_impl; [exact H|].
  intros c Hc. unfold digito_o_barra. by rewrite Hc.
Qed.

Lemma strftime_dmY_chars t :
  Forall (λ c, digito_o_barra c = true) (strftime_dmY t).
Proof.
  unfold strftime_dmY. repeat (apply Forall_app; split);
    try (apply digit_string_barra, zfill_digit_string, str_nat_digits);
    by repeat constructor.
Qed.

Lemma strftime_dmY_es_fecha t : reloj_valido t → es_fecha (strftime_dmY t) = true.
Proof.
  intros (Hd & Hm & Hy). unfold strftime_dmY.
  destruct (dos_digitos (day t)) as (d1 & d2 & -> & Hd1 & Hd2); [lia|].
  destruct (dos_digitos (month t)) as (m1 & m2 & -> & Hm1 & Hm2); [lia|].
  destruct (cuatro_digitos (year t) Hy) as (y1 & y2 & y3 & y4 & Ey & ? & ? & ? & ?).
  rewrite Ey. cbn.
  repeat match goal with H : is_digit _ = true |- _ => rewrite H; clear H end.
  done.
Qed.

Lemma es_fecha_chars s :
  es_fecha s = true → Forall (λ c, digito_o_barra c = true) s.
Proof.
  destruct s as [|a1 [|a2 [|a3 [|a4 [|a5 [|a6 [|a7 [|a8 [|a9 [|a10 [|? ?]]]]]]]]]]];
    try done.
  cbn. intros H. do 9 (apply andb_prop in H as [H ?]).
  unfold digito_o_barra.
  repeat (constructor; [by repeat match goal with
    | H : is_digit _ = true |- _ => rewrite H
    | H : bool_decide _ = true |- _ => rewrite H; clear H
    | |- _ => rewrite orb_true_r
    end|]).
  constructor.
Qed.

Lemma re_findall_word_of r texto fl w :
  w ∈ re_findall r texto fl → word_of fl r w.
Proof.
  unfold re_findall. intros (m & -> & Hm)%list_elem_of_fmap.
  by apply is_match_whole, (re_finditer_is_match r texto fl).
Qed.

(** The date found in the text, if there is one, has the form dd/mm/yyyy. *)
Lemma extraer_fecha_texto ahora texto :
  GeneraTxt.extraer_fecha ahora texto = strftime_dmY ahora
  ∨ es_fecha (GeneraTxt.extraer_fecha ahora texto) = true.
Proof.
  unfold GeneraTxt.extraer_fecha.
  destruct (re_search GeneraTxt.patron_fecha_emision texto re_I) as [m|] eqn:E.
  { right. apply re_search_is_match in E.
    destruct (is_match_group_str re_I GeneraTxt.patron_fecha_emision m 0 E)
      as (body & Hb & Hw); [by vm_compute|].
    cbn in Hb. apply list_elem_of_singleton in Hb as ->.
    by apply (fecha_barras_es_fecha re_I). }
  cbv zeta.
  set (fechas := re_findall GeneraTxt.fecha_barras texto re_none).
  assert (Hf : ∀ f, f ∈ fechas → es_fecha f = true).
  { intros f Hf. apply (fecha_barras_es_fecha re_none).
    by apply (re_findall_word_of _ texto). }
  destruct (4 <=? length fechas)%nat eqn:E4.
  { right. apply Nat.leb_le in E4.
    destruct (lookup_lt_is_Some_2 fechas 3 ltac:(lia)) as [f Hl].
    rewrite Hl. cbn. apply Hf. by apply list_elem_of_lookup_2 in Hl. }
  destruct fechas as [|f fs] eqn:Ef.
  - destruct (re_findall GeneraTxt.fecha_guiones texto re_none) as [|g gs] eqn:Eg.
    + by left.
    + right. apply (fecha_guiones_es_fecha re_none).
      apply (re_findall_word_of _ texto). rewrite Eg. by left.
  - right. apply Hf. by left.
Qed.

(** X8.  The issue date that [extraer_fecha] gives always holds digits and
    slashes only.  When the text holds a date, labelled or not, the result
    has the form dd/mm/yyyy; when it falls back on the clock, it has that form
    for every date whose year has four digits.  The form is all that is
    checked: a day or a month that does not exist is given back as found. *)
Theorem extraer_fecha_form (ahora : datetime) (texto : str) :
  Forall (λ c, digito_o_barra c = true) (GeneraTxt.extraer_fecha ahora texto)
  ∧ (GeneraTxt.extraer_fecha ahora texto = strftime_dmY ahora
     ∨ es_fecha (GeneraTxt.extraer_fecha ahora texto) = true)
  ∧ (reloj_valido ahora → es_fecha (GeneraTxt.extraer_fecha ahora texto) = true)
  ∧ (reloj_valido ahora → length (GeneraTxt.extraer_fecha ahora texto) = 10)
  ∧ GeneraTxt.extraer_fecha ahora (txt "Vence 99-99-0000") = txt "99/99/0000"
  ∧ GeneraTxt.extraer_fecha ahora_ejemplo (txt "sin fecha") = txt "07/03/2025".
Proof.
  pose proof (extraer_fecha_texto ahora texto) as Hc.
  assert (Hv : reloj_valido ahora →
               es_fecha (GeneraTxt.extraer_fecha ahora texto) = true).
  { intros Hr. destruct Hc as [-> | Hc]; [by apply strftime_dmY_es_fecha|done]. }
  split.
  { destruct Hc as [-> | Hc]; [apply strftime_dmY_chars|by apply es_fecha_chars]. }
  split; [done|]. split; [done|]. split.
  { intros Hr. specialize (Hv Hr).
    destruct (GeneraTxt.extraer_fecha ahora texto)
      as [|a1 [|a2 [|a3 [|a4 [|a5 [|a6 [|a7 [|a8 [|a9 [|a10 [|? ?]]]]]]]]]]];
      done. }
  split; by vm_compute.
Qed.

(** *** The period *)

Lemma meses_digits k v :
  GeneraTxt.meses !! k = Some v → digit_string v ∧ length v = 2.
Proof.
  unfold GeneraTxt.meses. intros H%elem_of_list_to_map_2.
  rewrite !elem_of_cons, elem_of_nil in H.
  repeat (destruct H as [[= _ ->]|H]; [by split; [repeat constructor|]|]).
  done.
Qed.

Lemma periodo_actual_digits ahora : digit_string (GeneraTxt.periodo_actual ahora).
Proof.
  unfold GeneraTxt.periodo_actual. apply Forall_app. split.
  - apply zfill_digit_string, str_nat_digits.
  - apply str_nat_digits.
Qed.

Lemma periodo_actual_es_periodo ahora :
  reloj_valido ahora → es_periodo (GeneraTxt.periodo_actual ahora).
Proof.
  intros (_ & Hm & Hy). split; [apply periodo_actual_digits|].
  unfold GeneraTxt.periodo_actual.
  destruct (dos_digitos (month ahora)) as (m1 & m2 & -> & _); [lia|].
  by destruct (cuatro_digitos (year ahora) Hy) as (? & ? & ? & ? & -> & _).
Qed.

(** The period read in the text has six digits. *)
Lemma extraer_periodo_texto ahora texto :
  GeneraTxt.extraer_periodo ahora texto = GeneraTxt.periodo_actual ahora
  ∨ es_periodo (GeneraTxt.extraer_periodo ahora texto).
Proof.
  unfold GeneraTxt.extraer_periodo.
  destruct (re_search GeneraTxt.patron_periodo texto re_I) as [m|] eqn:E.
  { right. apply re_search_is_match in E. split.
    - apply Forall_app. split.
      + by apply (group_str_within re_I is_digit 0 GeneraTxt.patron_periodo).
      + by apply (group_str_within re_I is_digit 1 GeneraTxt.patron_periodo).
    - rewrite length_app.
      rewrite (group_str_len re_I 0 2 GeneraTxt.patron_periodo) by done.
      by rewrite (group_str_len re_I 1 4 GeneraTxt.patron_periodo) by done. }
  destruct (re_search GeneraTxt.patron_mes texto re_I) as [m|] eqn:Em;
    [|by left].
  cbv zeta.
  destruct (GeneraTxt.meses !! lower (group_str 1 m)) as [mes|] eqn:Ek;
    [|by left].
  right. apply re_search_is_match in Em.
  destruct (meses_digits _ _ Ek) as [Hd Hl]. split.
  - apply Forall_app. split; [done|].
    by apply (group_str_within re_I is_digit 1 GeneraTxt.patron_mes).
  - rewrite length_app, Hl.
    by rewrite (group_str_len re_I 1 4 GeneraTxt.patron_mes) by done.
Qed.

(** X7.  The period that [extraer_periodo] gives always holds digits only.
    Read in the text, from "Período Facturado Desde:" or from "mes de ... de
    ...", it has six digits, the month first; taken from the clock it has six
    digits for every date whose year has four.  The month of a labelled
    period is given back as found, whether it exists or not; the name of a
    month is read whatever its case. *)
Theorem extraer_periodo_form (ahora : datetime) (texto : str) :
  digit_string (GeneraTxt.extraer_periodo ahora texto)
  ∧ (GeneraTxt.extraer_periodo ahora texto = GeneraTxt.periodo_actual ahora
     ∨ es_periodo (GeneraTxt.extraer_periodo ahora texto))
  ∧ (reloj_valido ahora → es_periodo (GeneraTxt.extraer_periodo ahora texto))
  ∧ (∀ m, re_search GeneraTxt.patron_periodo texto re_I = Some m →
          GeneraTxt.extraer_periodo ahora texto
          = group_str 1 m ++ group_str 2 m
          ∧ length (group_str 1 m) = 2 ∧ length (group_str 2 m) = 4)
  ∧ GeneraTxt.extraer_periodo ahora texto_periodo_13 = txt "132025"
  ∧ GeneraTxt.extraer_periodo ahora (txt "por el mes de MARZO de 2025")
    = txt "032025"
  ∧ GeneraTxt.extraer_periodo ahora_ejemplo (txt "por el mes de mazo de 2024")
    = txt "032025".
Proof.
  pose proof (extraer_periodo_texto ahora texto) as Hc.
  split.
  { destruct Hc as [-> | [Hd _]]; [apply periodo_actual_digits|done]. }
  split; [done|]. split.
  { intros Hr. destruct Hc as [-> | Hc]; [by apply periodo_actual_es_periodo|done]. }
  split.
  { intros m Hm. unfold GeneraTxt.extraer_periodo. rewrite Hm.
    apply re_search_is_match in Hm. split; [done|]. split.
    - by apply (group_str_len re_I 0 2 GeneraTxt.patron_periodo).
    - by apply (group_str_len re_I 1 4 GeneraTxt.patron_periodo). }
  split_and!; by vm_compute.
Qed.

